(** * Parallel-universe weather: derived climate and energy signals

    A shallow embedding of [src/models/demand_ninja.py] (temporal smoothing,
    heating and cooling degree days, the BAIT index) and of
    [src/models/wind.py] (wind power density), followed by the properties
    of the specification that hold or fail on that code.

    Cells are IEEE-754 binary64 numbers, as in numpy: the primitive
    [float] of the kernel, whose operations are specified by [SpecFloat].
    A one-dimensional [xr.DataArray] along the [step] dimension is a
    [list float]; auxiliary dimensions are carried through cell by cell
    by every operation of the source and are not modelled. The
    transcendental functions of numpy ([np.exp], [**] with a float
    exponent) are parameters of the sections that use them. *)

From Stdlib Require Import List ZArith Lia Bool Floats.
Import ListNotations.

Set Warnings "-inexact-float".
Open Scope float_scope.

(** ** Python outcomes *)

(** The two exceptions the modelled code can raise: the [assert] of
    [smooth_temperature_xarray], and xarray's refusal of a rolling
    window of no step or over a series of no step. *)
Inductive exn : Type :=
  | AssertionError
  | ValueError.

Inductive result (A : Type) : Type :=
  | Ok (a : A)
  | Raise (e : exn).

Arguments Ok {A} a.
Arguments Raise {A} e.

Definition bind {A B : Type} (r : result A) (k : A -> result B) : result B :=
  match r with
  | Ok a => k a
  | Raise e => Raise e
  end.

(** ** Array primitives of numpy and xarray *)

Definition DataArray : Type := list float.

(** [x.isnull()] on one cell. *)
Definition isnull (x : float) : bool := is_nan x.

(** [x.fillna(fill_value)] on one cell. *)
Definition fillna (fill_value x : float) : float :=
  if isnull x then fill_value else x.

(** [xr.where(cond, x, y)] and [da.where(cond, other=y)] on one cell. *)
Definition xr_where (cond : bool) (x y : float) : float :=
  if cond then x else y.

(** Elementwise binary operation on aligned arrays. *)
Fixpoint map2 (f : float -> float -> float) (a b : list float) : list float :=
  match a, b with
  | x :: a', y :: b' => f x y :: map2 f a' b'
  | _, _ => []
  end.

(** [np.sum(a)] of a plain array: the reduction starts from the first
    cell; the empty sum is [0]. The cells are added here in index order.
    numpy does not fix the order (it adds eight or more cells by
    blocks), so a sum is pinned to a value below only where every order
    gives that value: sums of a few binary fractions, and NaN. *)
Definition np_sum (a : list float) : float :=
  match a with
  | [] => 0
  | x :: a' => fold_left add a' x
  end.

(** [a.sum()] of a float [xr.DataArray]: xarray skips the NaN cells,
    which numpy's [nansum] does by counting them as [0]. *)
Definition xr_sum (a : list float) : float := np_sum (map (fillna 0) a).

(** [a.dot(w, dims=['window'])] on one window: the sum of the products.
    The products are added here in index order from [0]; the order of
    [einsum] depends on the machine, and the same caveat as for
    [np_sum] applies. *)
Definition dot (window weights : list float) : float :=
  fold_left (fun acc p => acc + fst p * snd p) (combine window weights) 0.

(** The rows of a rolling window of [W] steps, for [1 <= W] and a series
    that is not empty: row [t] holds the [W] steps ending at [t], oldest
    first; the places before the first step of the series are padded
    with NaN. *)
Definition windows (W : nat) (temperature : DataArray) : list (list float) :=
  map (fun t =>
         map (fun j =>
                if (t + j <? W - 1)%nat then nan
                else nth (t + j - (W - 1)) temperature nan)
             (seq 0 W))
      (seq 0 (length temperature)).

(** [temperature.rolling(step=W, min_periods=1).construct('window')].
    [rolling] refuses a window of no step, and [construct], which pads
    the series with [W-1] cells and slides the window over it, refuses
    an empty series: the padded array is shorter than the window. Both
    raise [ValueError]. *)
Definition construct (W : nat) (temperature : DataArray)
  : result (list (list float)) :=
  if (W =? 0)%nat then Raise ValueError
  else if (length temperature =? 0)%nat then Raise ValueError
  else Ok (windows W temperature).

(** Python's [l[-k:]] for [1 <= k]. *)
Definition last_items (k : nat) (l : list float) : list float :=
  skipn (length l - k) l.

(** [a[:k] = v]: every cell of the prefix is overwritten. *)
Definition assign_prefix (k : nat) (v : float) (a : DataArray) : DataArray :=
  repeat v (Nat.min k (length a)) ++ skipn k a.

(** The series with step [t] replaced by [v], for [t] in range. *)
Definition replace_step (t : nat) (v : float) (xs : DataArray) : DataArray :=
  firstn t xs ++ v :: skipn (S t) xs.

Module DemandNinja.

(** The loop of lines 51-54, [weights] being the reversed list:
<<
    for i in range(len(weights)):
        truncated_weights_sum = np.sum(weights[-(i+1):])
        normalization_factors[:i+1] = truncated_weights_sum
>> *)
Definition adjust_normalization (weights : list float) (normalization_factors : DataArray)
  : DataArray :=
  fold_left
    (fun nf i => assign_prefix (i + 1) (np_sum (last_items (i + 1) weights)) nf)
    (seq 0 (length weights))
    normalization_factors.

Definition smooth_temperature_xarray
    (temperature : DataArray) (weights : list float) (keep_all_days : bool)
  : result DataArray :=
  let weights := rev weights in
  if keep_all_days && existsb isnull temperature then Raise AssertionError
  else
    let fill_value := if keep_all_days then 0 else nan in
    bind (construct (length weights) temperature) (fun rows =>
    let smoothed :=
      map (fun window => dot (map (fillna fill_value) window) weights) rows in
    let total_weights_sum := xr_sum weights in
    if keep_all_days then
      let normalization_factors :=
        adjust_normalization weights (map (fun _ => total_weights_sum) smoothed) in
      Ok (map2 div smoothed normalization_factors)
    else
      Ok (map (fun s => s / total_weights_sum) smoothed)).

Definition get_hdd (temperature : DataArray) (threshold : float) : DataArray :=
  map (fun t => xr_where (t <? threshold) (threshold - t) 0) temperature.

Definition get_cdd (temperature : DataArray) (threshold : float) : DataArray :=
  map (fun t => xr_where (threshold <? t) (t - threshold) 0) temperature.

(** The four data variables of the [weather] dataset read by the BAIT. *)
Record Dataset : Type := mkDataset
  { humidity : DataArray;
    radiation_global_horizontal : DataArray;
    temperature : DataArray;
    wind_speed_2m : DataArray }.

Section Bait.

(** [np.exp] and Python's [**] on floats, which the kernel's floats do
    not provide. *)
Variable exp : float -> float.
Variable pow : float -> float -> float.

(** The humidity setpoint of line 128, in kg of water per kg of air. *)
Definition setpoint_H (T : float) : float := exp (1.1 + 0.06 * T) / 1000.

(** One cell of the unsmoothed index, lines 125-150. *)
Definition unsmoothed
    (solar_gains wind_chill humidity_discomfort : float)
    (T rad wind hum : float) : float :=
  let setpoint_S := 100 + 7 * T in
  let setpoint_W := 4.5 - 0.025 * T in
  let setpoint_H := setpoint_H T in
  let setpoint_T := 16 in
  let N := T + (rad - setpoint_S) * solar_gains + (wind - setpoint_W) * wind_chill in
  let discomfort := N - setpoint_T in
  setpoint_T + discomfort + discomfort * (hum - setpoint_H) * humidity_discomfort.

(** One cell of the sigmoid blend factor, lines 157-165. *)
Definition blend_factor (T : float) : float :=
  let lower_blend := 15 in
  let upper_blend := 23 in
  let max_raw_var := 0.5 in
  let avg_blend := (lower_blend + upper_blend) / 2 in
  let dif_blend := upper_blend - lower_blend in
  let blend := (T - avg_blend) * 10 / dif_blend in
  max_raw_var / (1 + exp (- blend)).

Fixpoint unsmoothed_array
    (solar_gains wind_chill humidity_discomfort : float)
    (T rad wind hum : DataArray) : DataArray :=
  match T, rad, wind, hum with
  | t :: T', r :: rad', w :: wind', h :: hum' =>
      unsmoothed solar_gains wind_chill humidity_discomfort t r w h
      :: unsmoothed_array solar_gains wind_chill humidity_discomfort T' rad' wind' hum'
  | _, _, _, _ => []
  end.

(** The weights of line 154: [[1]*4 + [smoothing]*4 + [smoothing**2]*4]. *)
Definition bait_weights (smoothing : float) : list float :=
  repeat 1 4 ++ repeat smoothing 4 ++ repeat (pow smoothing 2) 4.

Definition _bait_xarray
    (weather : Dataset)
    (smoothing solar_gains wind_chill humidity_discomfort : float)
  : result DataArray :=
  let N := unsmoothed_array solar_gains wind_chill humidity_discomfort
             (temperature weather) (radiation_global_horizontal weather)
             (wind_speed_2m weather) (humidity weather) in
  bind (smooth_temperature_xarray N (bait_weights smoothing) false) (fun N =>
  Ok (map2 (fun T n => T * blend_factor T + n * (1 - blend_factor T))
           (temperature weather) N)).

(** The end-to-end scenario of the specification: 16 uniform steps at
    20 degrees, no radiation, no wind, humidity at its setpoint. *)
Definition uniform_weather : Dataset :=
  {| humidity := repeat (setpoint_H 20) 16;
     radiation_global_horizontal := repeat 0 16;
     temperature := repeat 20 16;
     wind_speed_2m := repeat 0 16 |}.

End Bait.

(** A truncated power series of the exponential, on which the
    properties that are parametric in [np.exp] can be run. *)
Fixpoint exp_terms (n : nat) (k term x acc : float) : float :=
  match n with
  | O => acc
  | S n' => exp_terms n' (k + 1) (term * x / (k + 1)) x (acc + term)
  end.

Definition exp_series (x : float) : float := exp_terms 40 0 1 x 0.

End DemandNinja.

Module Wind.

Section WindPower.

(** numpy's [**] with a float exponent, used by the height extrapolation. *)
Variable power : float -> float -> float.

Definition air_density : float := 1.225.

(** [da_wind ** 3], written as the repeated product. It is numpy's
    power wherever the cube is a binary64 number (at 0, 3 and 11, the
    values that the masks produce by themselves); elsewhere the two can
    differ in the last place, so no value is stated there. *)
Definition cube (x : float) : float := x * x * x.

(** One cell of [calculate_wind_power_potential], lines 37-47. *)
Definition wind_power_cell
    (hub_height : option float) (alpha cap_speed cut_out_speed cut_in_speed : float)
    (w : float) : float :=
  let w :=
    match hub_height with
    | Some h => if h =? 100 then w else w * power (h / 100) alpha
    | None => w
    end in
  let w := xr_where (w <=? cut_out_speed) w 0 in
  let w := xr_where (cut_in_speed <=? w) w 0 in
  let w := xr_where (w <=? cap_speed) w cap_speed in
  0.5 * air_density * cube w.

Definition calculate_wind_power_potential
    (da_wind : DataArray) (hub_height : option float)
    (alpha cap_speed cut_out_speed cut_in_speed : float) : DataArray :=
  map (wind_power_cell hub_height alpha cap_speed cut_out_speed cut_in_speed) da_wind.

(** The defaults of the signature: no hub height, [alpha = 1/7],
    [cap_speed = 11.0], [cut_out_speed = 25.0], [cut_in_speed = 3.0]. *)
Definition wind_power_density (da_wind : DataArray) : DataArray :=
  calculate_wind_power_potential da_wind None (1 / 7) 11 25 3.

End WindPower.

End Wind.


(** ** The smoother as the specification words it *)

(** Section 4.1, step 3: the weighted sum over the offsets whose step
    exists, [weights] being most recent first. *)
Definition truncated_window_sum (series weights : list float) (t : nat) : float :=
  fold_left
    (fun acc offset => acc + nth offset weights 0 * nth (t - offset) series 0)
    (seq 0 (Nat.min (S t) (length weights)))
    0.

(** Section 4.1, step 5: the sum of only the weights applicable to the
    truncated window of step [t]. *)
Definition truncated_weight_sum (weights : list float) (t : nat) : float :=
  np_sum (firstn (S t) weights).

(** Two cells hold the same value: the same number, a zero of either
    sign being one number, or NaN on both sides. *)
Definition same_value (a b : float) : bool :=
  (is_nan a && is_nan b) || (a =? b).

(** ** Auxiliary notions *)

(** The value filled into the missing cells of a window. *)
Definition fill_of (keep_all_days : bool) : float :=
  if keep_all_days then 0 else nan.


(** A binary64 value that is a number and is not negative. *)
Definition SFnonneg (r : spec_float) : Prop :=
  r = S754_zero false \/
  (exists m e, r = S754_finite false m e) \/
  r = S754_infinity false.

(** A number of magnitude below [2^(E+53)]: a zero, or a finite number
    whose exponent is at most [E]. *)
Definition SFbelow (E : Z) (r : spec_float) : Prop :=
  match r with
  | S754_zero _ => True
  | S754_finite _ _ e => (e <= E)%Z
  | _ => False
  end.

(** A finite number above zero. *)
Definition SFpositive (r : spec_float) : Prop :=
  match r with
  | S754_finite false _ _ => True
  | _ => False
  end.

(** A finite number that is zero or above. *)
Definition SFweight (r : spec_float) : Prop :=
  match r with
  | S754_zero _ => True
  | S754_finite false _ _ => True
  | _ => False
  end.

(** The inputs on which the smoother produces no NaN of its own, by
    overflow or by a zero total of the weights: at most 300 weights,
    each between [0] and [1e60], one of them above [0]; cells of
    magnitude at most [1e60]. *)
Definition weight_in_range (w : float) : bool := (0 <=? w) && (w <=? 1e60).

Definition weights_in_range (ws : list float) : bool :=
  (length ws <=? 300)%nat && forallb weight_in_range ws
  && existsb (fun w => 0 <? w) ws.

Definition in_range (x : float) : bool := abs x <=? 1e60.

(** ** Keys of the binary64 order

    Comparison of two numbers ([SFcompare]) is the lexicographic
    comparison of their keys: class and sign first, then exponent, then
    mantissa. *)

Definition SFkey (x : spec_float) : Z * Z * Z :=
  match x with
  | S754_nan => (0, 0, 0)%Z
  | S754_zero _ => (0, 0, 0)%Z
  | S754_infinity true => (-2, 0, 0)%Z
  | S754_infinity false => (2, 0, 0)%Z
  | S754_finite true m e => (-1, - e, Zneg m)%Z
  | S754_finite false m e => (1, e, Zpos m)%Z
  end.

Definition key_compare (k1 k2 : Z * Z * Z) : comparison :=
  let '(a1, b1, c1) := k1 in
  let '(a2, b2, c2) := k2 in
  match (a1 ?= a2)%Z with
  | Eq => match (b1 ?= b2)%Z with
          | Eq => (c1 ?= c2)%Z
          | r => r
          end
  | r => r
  end.

Definition key_lt (k1 k2 : Z * Z * Z) : Prop :=
  let '(a1, b1, c1) := k1 in
  let '(a2, b2, c2) := k2 in
  (a1 < a2 \/ (a1 = a2 /\ (b1 < b2 \/ (b1 = b2 /\ c1 < c2))))%Z.

Definition fkey (x : float) : Z * Z * Z := SFkey (Prim2SF x).

(** * Facts about binary64 arithmetic

    Derived from the specification of the primitive operations
    ([FloatAxioms]) by case analysis on [spec_float]. *)

Module IEEE.

(** Closes a goal that holds by computation in each class of [x]. *)
Ltac by_class x :=
  destruct (Prim2SF x) as [[]|[]| |[] ? ?]; reflexivity.

Lemma Prim2SF_nan : Prim2SF nan = S754_nan.
Proof. reflexivity. Qed.

Lemma Prim2SF_zero : Prim2SF 0 = S754_zero false.
Proof. reflexivity. Qed.

Lemma SFeqb_refl (x : spec_float) : x <> S754_nan -> SFeqb x x = true.
Proof.
  destruct x as [s|s| |s m e]; unfold SFeqb; simpl; intros Hx.
  - reflexivity.
  - destruct s; reflexivity.
  - congruence.
  - rewrite Z.compare_refl.
    change (Pos.compare_cont Eq m m) with (Pos.compare m m).
    rewrite Pos.compare_refl. destruct s; reflexivity.
Qed.

Lemma is_nan_spec (x : float) : is_nan x = true <-> Prim2SF x = S754_nan.
Proof.
  unfold is_nan. rewrite eqb_spec. split.
  - intros H. destruct (Prim2SF x) as [s|s| |s m e] eqn:E; try reflexivity;
      rewrite SFeqb_refl in H by discriminate; discriminate.
  - intros ->. reflexivity.
Qed.

Lemma is_nan_eq (x : float) : is_nan x = true -> x = nan.
Proof.
  intros H. apply Prim2SF_inj. rewrite Prim2SF_nan. now apply is_nan_spec.
Qed.

Lemma is_nan_false (x : float) : is_nan x = false <-> Prim2SF x <> S754_nan.
Proof.
  rewrite <- is_nan_spec. destruct (is_nan x); split; congruence.
Qed.

Lemma add_nan_l (x : float) : nan + x = nan.
Proof. apply Prim2SF_inj. rewrite add_spec, Prim2SF_nan. reflexivity. Qed.

Lemma add_nan_r (x : float) : x + nan = nan.
Proof.
  apply Prim2SF_inj. rewrite add_spec, Prim2SF_nan.
  by_class x.
Qed.

Lemma mul_nan_l (x : float) : nan * x = nan.
Proof. apply Prim2SF_inj. rewrite mul_spec, Prim2SF_nan. reflexivity. Qed.

Lemma mul_nan_r (x : float) : x * nan = nan.
Proof.
  apply Prim2SF_inj. rewrite mul_spec, Prim2SF_nan.
  by_class x.
Qed.

Lemma div_nan_l (x : float) : nan / x = nan.
Proof. apply Prim2SF_inj. rewrite div_spec, Prim2SF_nan. reflexivity. Qed.

Lemma sub_nan_l (x : float) : nan - x = nan.
Proof. apply Prim2SF_inj. rewrite sub_spec, Prim2SF_nan. reflexivity. Qed.

Lemma sub_nan_r (x : float) : x - nan = nan.
Proof.
  apply Prim2SF_inj. rewrite sub_spec, Prim2SF_nan.
  by_class x.
Qed.

Lemma ltb_nan_l (x : float) : (nan <? x) = false.
Proof. rewrite ltb_spec, Prim2SF_nan. reflexivity. Qed.

Lemma ltb_nan_r (x : float) : (x <? nan) = false.
Proof.
  rewrite ltb_spec, Prim2SF_nan.
  by_class x.
Qed.

Lemma SFcompare_key (x y : spec_float) :
  x <> S754_nan -> y <> S754_nan ->
  SFcompare x y = Some (key_compare (SFkey x) (SFkey y)).
Proof.
  intros Hx Hy.
  destruct x as [sx|sx| |sx mx ex], y as [sy|sy| |sy my ey]; try congruence;
    try (destruct sx; reflexivity); try (destruct sy; reflexivity);
    try (destruct sx, sy; reflexivity).
  destruct sx, sy; try reflexivity; unfold SFcompare, SFkey, key_compare.
  - rewrite Z.compare_opp. rewrite (Z.compare_antisym ey ex).
    destruct (ey ?= ex)%Z; reflexivity.
Qed.

Lemma key_compare_lt (k1 k2 : Z * Z * Z) :
  key_compare k1 k2 = Lt <-> key_lt k1 k2.
Proof.
  destruct k1 as [[a1 b1] c1], k2 as [[a2 b2] c2]. unfold key_compare, key_lt.
  destruct (Z.compare_spec a1 a2); destruct (Z.compare_spec b1 b2);
    destruct (Z.compare_spec c1 c2); split; intros; try discriminate;
    try reflexivity; try lia; exfalso; lia.
Qed.

Lemma key_compare_eq (k1 k2 : Z * Z * Z) :
  key_compare k1 k2 = Eq <-> k1 = k2.
Proof.
  destruct k1 as [[a1 b1] c1], k2 as [[a2 b2] c2]. unfold key_compare.
  destruct (Z.compare_spec a1 a2); destruct (Z.compare_spec b1 b2);
    destruct (Z.compare_spec c1 c2); split; intros H'; try discriminate;
    try (injection H'; intros); try reflexivity; try (exfalso; lia);
    subst; reflexivity.
Qed.

Lemma key_compare_gt (k1 k2 : Z * Z * Z) :
  key_compare k1 k2 = Gt <-> key_lt k2 k1.
Proof.
  destruct k1 as [[a1 b1] c1], k2 as [[a2 b2] c2]. unfold key_compare, key_lt.
  destruct (Z.compare_spec a1 a2); destruct (Z.compare_spec b1 b2);
    destruct (Z.compare_spec c1 c2); split; intros; try discriminate;
    try reflexivity; try lia; exfalso; lia.
Qed.

(** [x <? y] on numbers is the strict order of the keys. *)
Lemma ltb_key (x y : float) :
  (x <? y) = true <->
  is_nan x = false /\ is_nan y = false /\ key_lt (fkey x) (fkey y).
Proof.
  rewrite ltb_spec, !is_nan_false. unfold fkey, SFltb. split.
  - intros H.
    assert (Hx : Prim2SF x <> S754_nan) by (intros E; rewrite E in H; discriminate).
    assert (Hy : Prim2SF y <> S754_nan).
    { intros E; rewrite E in H. destruct (Prim2SF x) as [[]|[]| |[] ? ?]; discriminate. }
    rewrite SFcompare_key in H by assumption.
    repeat split; try assumption. apply key_compare_lt.
    destruct (key_compare _ _); congruence.
  - intros (Hx & Hy & Hlt). rewrite SFcompare_key by assumption.
    apply key_compare_lt in Hlt. now rewrite Hlt.
Qed.

(** [x <=? y] on numbers is the large order of the keys. *)
Lemma leb_key (x y : float) :
  (x <=? y) = true <->
  is_nan x = false /\ is_nan y = false /\ (key_lt (fkey x) (fkey y) \/ fkey x = fkey y).
Proof.
  rewrite leb_spec, !is_nan_false. unfold fkey, SFleb. split.
  - intros H.
    assert (Hx : Prim2SF x <> S754_nan) by (intros E; rewrite E in H; discriminate).
    assert (Hy : Prim2SF y <> S754_nan).
    { intros E; rewrite E in H. destruct (Prim2SF x) as [[]|[]| |[] ? ?]; discriminate. }
    rewrite SFcompare_key in H by assumption.
    repeat split; try assumption.
    destruct (key_compare _ _) eqn:E; try discriminate.
    + right. now apply key_compare_eq.
    + left. now apply key_compare_lt.
  - intros (Hx & Hy & [Hlt|Heq]); rewrite SFcompare_key by assumption.
    + apply key_compare_lt in Hlt. now rewrite Hlt.
    + apply key_compare_eq in Heq. now rewrite Heq.
Qed.

Lemma leb_false_key (x y : float) :
  is_nan x = false -> is_nan y = false -> key_lt (fkey y) (fkey x) ->
  (x <=? y) = false.
Proof.
  intros Hx Hy Hlt. rewrite leb_spec. unfold SFleb.
  rewrite SFcompare_key by now apply is_nan_false.
  apply key_compare_gt in Hlt. unfold fkey in Hlt. now rewrite Hlt.
Qed.

Lemma ltb_false_key (x y : float) :
  key_lt (fkey y) (fkey x) \/ fkey x = fkey y -> (x <? y) = false.
Proof.
  intros H. destruct (x <? y) eqn:E; [|reflexivity].
  apply ltb_key in E. destruct E as (_ & _ & Hlt).
  destruct (fkey x) as [[a1 b1] c1], (fkey y) as [[a2 b2] c2].
  unfold key_lt in *. destruct H as [H|H]; [|injection H; intros]; lia.
Qed.

(** A positive finite number is determined by its key. *)
Lemma fkey_positive (x : float) (m : positive) (e : Z) :
  fkey x = (1, e, Zpos m)%Z -> Prim2SF x = S754_finite false m e.
Proof.
  unfold fkey. destruct (Prim2SF x) as [s|[]| |[] m' e']; simpl; intros H;
    try discriminate; injection H; intros; subst; reflexivity.
Qed.

(** ** Rounding never changes the sign *)

Lemma iter_pos_preserves {A : Type} (P : A -> Prop) (f : A -> A) :
  (forall x, P x -> P (f x)) -> forall p x, P x -> P (iter_pos f p x).
Proof.
  intros Hf. induction p as [p IH|p IH|]; intros x Hx; simpl; auto.
Qed.

Lemma shr_1_nonneg (mrs : shr_record) :
  (0 <= shr_m mrs)%Z -> (0 <= shr_m (shr_1 mrs))%Z.
Proof.
  destruct mrs as [m r s]. destruct m as [|[p|p|]|p]; simpl; lia.
Qed.

Lemma shr_fexp_nonneg (m e : Z) (l : location) :
  (0 <= m)%Z -> (0 <= shr_m (fst (shr_fexp prec emax m e l)))%Z.
Proof.
  intros Hm. unfold shr_fexp, shr.
  assert (H0 : (0 <= shr_m (shr_record_of_loc m l))%Z)
    by (destruct l as [|[]]; simpl; exact Hm).
  destruct (fexp prec emax (Zdigits2 m + e) - e)%Z; simpl; auto.
  apply (iter_pos_preserves (fun r => (0 <= shr_m r)%Z)); auto using shr_1_nonneg.
Qed.

Lemma round_nearest_even_nonneg (m : Z) (l : location) :
  (0 <= m)%Z -> (0 <= round_nearest_even m l)%Z.
Proof.
  intros Hm. destruct l as [|[]]; simpl; try destruct (Z.even m); lia.
Qed.

(** Rounding a non-negative integer mantissa yields a zero, a finite
    number or an infinity of the requested sign, never NaN. *)
Lemma binary_round_aux_cases (sx : bool) (mx ex : Z) (lx : location) :
  (0 <= mx)%Z ->
  binary_round_aux prec emax sx mx ex lx = S754_zero sx \/
  (exists m e, binary_round_aux prec emax sx mx ex lx = S754_finite sx m e) \/
  binary_round_aux prec emax sx mx ex lx = S754_infinity sx.
Proof.
  intros Hm. unfold binary_round_aux.
  pose proof (shr_fexp_nonneg mx ex lx Hm) as H1.
  destruct (shr_fexp prec emax mx ex lx) as [mrs' e']. simpl in H1.
  pose proof (shr_fexp_nonneg _ e' loc_Exact
                (round_nearest_even_nonneg _ (loc_of_shr_record mrs') H1)) as H2.
  destruct (shr_fexp prec emax _ e' loc_Exact) as [mrs'' e'']. simpl in H2.
  destruct (shr_m mrs'') as [|m|m].
  - now left.
  - destruct (e'' <=? emax - prec)%Z; [right; left; eauto | now right; right].
  - lia.
Qed.

Lemma binary_round_cases (sx : bool) (m : positive) (e : Z) :
  binary_round prec emax sx m e = S754_zero sx \/
  (exists m' e', binary_round prec emax sx m e = S754_finite sx m' e') \/
  binary_round prec emax sx m e = S754_infinity sx.
Proof.
  unfold binary_round. destruct (shl_align _ _ _) as [mz ez].
  apply binary_round_aux_cases. lia.
Qed.

Lemma binary_round_aux_opp (sx : bool) (mx ex : Z) (lx : location) :
  binary_round_aux prec emax (negb sx) mx ex lx =
  SFopp (binary_round_aux prec emax sx mx ex lx).
Proof.
  unfold binary_round_aux.
  destruct (shr_fexp prec emax mx ex lx) as [mrs' e'].
  destruct (shr_fexp prec emax _ e' loc_Exact) as [mrs'' e''].
  destruct (shr_m mrs''); [reflexivity| |reflexivity].
  destruct (_ <=? _)%Z; reflexivity.
Qed.

Lemma binary_normalize_opp (d e : Z) :
  d <> 0%Z ->
  binary_normalize prec emax (- d) e false =
  SFopp (binary_normalize prec emax d e false).
Proof.
  intros Hd. destruct d as [|p|p]; [congruence| |]; simpl; unfold binary_round;
    destruct (shl_align _ _ _) as [mz ez].
  - apply (binary_round_aux_opp false).
  - rewrite <- (binary_round_aux_opp true). reflexivity.
Qed.

(** ** Canonical mantissas *)

Lemma digits2_pos_bounds (m : positive) :
  (2 ^ (Zpos (digits2_pos m) - 1) <= Zpos m < 2 ^ Zpos (digits2_pos m))%Z.
Proof.
  induction m as [m IH|m IH|]; cbn [digits2_pos].
  - rewrite Pos2Z.inj_succ. replace (Z.succ (Zpos (digits2_pos m)) - 1)%Z
      with (Z.succ (Zpos (digits2_pos m) - 1)) by lia.
    rewrite !Z.pow_succ_r by lia. lia.
  - rewrite Pos2Z.inj_succ. replace (Z.succ (Zpos (digits2_pos m)) - 1)%Z
      with (Z.succ (Zpos (digits2_pos m) - 1)) by lia.
    rewrite !Z.pow_succ_r by lia. lia.
  - simpl. lia.
Qed.

Lemma bounded_mantissa (m : positive) (e : Z) :
  bounded prec emax m e = true ->
  (-1074 <= e /\ Zpos m < 2 ^ 53 /\ (-1074 < e -> 2 ^ 52 <= Zpos m))%Z.
Proof.
  unfold bounded, canonical_mantissa, fexp, SpecFloat.emin, prec, emax.
  intros H. apply andb_prop in H. destruct H as [H _]. apply Z.eqb_eq in H.
  pose proof (digits2_pos_bounds m) as [Hlo Hhi].
  set (d := Zpos (digits2_pos m)) in *.
  assert (Hd : (d <= 53)%Z) by lia.
  split; [lia|]. split.
  - apply Z.lt_le_trans with (2 ^ d)%Z; [exact Hhi|].
    apply Z.pow_le_mono_r; lia.
  - intros He. assert (d = 53%Z) by lia. subst d.
    replace 52%Z with (53 - 1)%Z by reflexivity. rewrite <- H0. exact Hlo.
Qed.

Lemma iter_xO_value (m d : positive) :
  Zpos (Pos.iter xO m d) = (Zpos m * 2 ^ Zpos d)%Z.
Proof.
  induction d as [|d IH] using Pos.peano_ind.
  - simpl. lia.
  - rewrite Pos.iter_succ, Pos2Z.inj_succ, Z.pow_succ_r by lia.
    rewrite Pos2Z.inj_xO, IH. lia.
Qed.

Lemma shl_align_value (m : positive) (e ez : Z) :
  (ez <= e)%Z ->
  Zpos (fst (shl_align m e ez)) = (Zpos m * 2 ^ (e - ez))%Z.
Proof.
  intros He. unfold shl_align. destruct (ez - e)%Z as [|p|p] eqn:E; simpl.
  - replace (e - ez)%Z with 0%Z by lia. simpl. lia.
  - lia.
  - rewrite iter_xO_value. replace (e - ez)%Z with (Zpos p) by lia. reflexivity.
Qed.

(** Between canonical mantissas the larger exponent wins. *)
Lemma canonical_exponent_order (m1 m2 : positive) (e1 e2 : Z) :
  bounded prec emax m1 e1 = true -> bounded prec emax m2 e2 = true ->
  (e1 < e2)%Z -> (Zpos m1 < Zpos m2 * 2 ^ (e2 - e1))%Z.
Proof.
  intros H1 H2 He.
  apply bounded_mantissa in H1. apply bounded_mantissa in H2.
  destruct H1 as (Hmin & Hhi & _). destruct H2 as (_ & _ & Hlo).
  specialize (Hlo ltac:(lia)).
  assert (Hp : (2 ^ 1 <= 2 ^ (e2 - e1))%Z) by (apply Z.pow_le_mono_r; lia).
  change (2 ^ 1)%Z with 2%Z in Hp.
  change (2 ^ 53)%Z with (2 ^ 52 * 2)%Z in Hhi.
  apply Z.lt_le_trans with (2 ^ 52 * 2)%Z; [exact Hhi|].
  apply Z.mul_le_mono_nonneg; lia.
Qed.

(** ** Subtraction *)

Lemma SFleb_zero_cases (sx : bool) (r : spec_float) :
  r = S754_zero sx \/ (exists m e, r = S754_finite sx m e) \/ r = S754_infinity sx ->
  sx = false -> SFleb (S754_zero false) r = true.
Proof.
  intros [->|[(m & e & ->)| ->]] ->; reflexivity.
Qed.

(** The difference of two ordered numbers is never negative and never
    NaN: the subtrahend's aligned mantissa is the smaller one. *)
Lemma SFsub_ordered (x y : spec_float) :
  valid_binary x = true -> valid_binary y = true ->
  x <> S754_nan -> y <> S754_nan ->
  key_lt (SFkey x) (SFkey y) ->
  SFleb (S754_zero false) (SF64sub y x) = true.
Proof.
  intros Vx Vy Hx Hy Hlt.
  destruct x as [sx|sx| |sx mx ex], y as [sy|sy| |sy my ey]; try congruence;
    try (destruct sx, sy; simpl in Hlt; try lia; reflexivity);
    try (destruct sx; simpl in Hlt; try lia; reflexivity);
    try (destruct sy; simpl in Hlt; try lia; reflexivity).
  simpl in Vx, Vy. unfold SF64sub, SFsub.
  set (ez := Z.min ey ex).
  assert (Hy' := shl_align_value my ey ez ltac:(lia)).
  assert (Hx' := shl_align_value mx ex ez ltac:(lia)).
  set (My := fst (shl_align my ey ez)) in *.
  set (Mx := fst (shl_align mx ex ez)) in *.
  assert (Hpx : (0 < 2 ^ (ex - ez))%Z) by (apply Z.pow_pos_nonneg; lia).
  assert (Hpy : (0 < 2 ^ (ey - ez))%Z) by (apply Z.pow_pos_nonneg; lia).
  assert (HD : (0 < cond_Zopp sy (Zpos My) - cond_Zopp sx (Zpos Mx))%Z).
  { rewrite Hx', Hy'. unfold cond_Zopp.
    destruct sx, sy; simpl in Hlt; try lia.
    - (* both negative: the larger magnitude is the smaller number *)
      destruct Hlt as [Hlt|[_ [Hlt|[He Hm]]]]; [lia| |].
      + assert (Hez : ez = ey) by lia. rewrite Hez, Z.sub_diag.
        pose proof (canonical_exponent_order my mx ey ex Vy Vx ltac:(lia)). lia.
      + assert (ex = ey) by lia. subst ey. nia.
    - destruct Hlt as [Hlt|[_ [Hlt|[He Hm]]]]; [lia| |].
      + assert (Hez : ez = ex) by lia. rewrite Hez, Z.sub_diag.
        pose proof (canonical_exponent_order mx my ex ey Vx Vy ltac:(lia)). lia.
      + subst ey. nia. }
  destruct (cond_Zopp sy (Zpos My) - cond_Zopp sx (Zpos Mx))%Z as [|d|d]; try lia.
  simpl. apply (SFleb_zero_cases false); [apply binary_round_cases | reflexivity].
Qed.

(** Swapping the operands of a subtraction negates the result, up to
    the sign of a zero. *)
Lemma SFsub_swap (x y : spec_float) :
  SF64sub y x = SFopp (SF64sub x y) \/
  (exists s s', SF64sub y x = S754_zero s /\ SF64sub x y = S754_zero s').
Proof.
  destruct x as [sx|sx| |sx mx ex], y as [sy|sy| |sy my ey];
    try (left; reflexivity);
    try (destruct sx; left; reflexivity);
    try (destruct sy; left; reflexivity);
    try (destruct sx, sy;
         solve [left; reflexivity | right; do 2 eexists; split; reflexivity]).
  unfold SF64sub, SFsub. rewrite (Z.min_comm ey ex).
  set (ez := Z.min ex ey).
  set (a := cond_Zopp sx (Zpos (fst (shl_align mx ex ez)))).
  set (b := cond_Zopp sy (Zpos (fst (shl_align my ey ez)))).
  destruct (Z.eq_dec (a - b) 0) as [E|E].
  - right. exists false, false. rewrite E. replace (b - a)%Z with 0%Z by lia.
    split; reflexivity.
  - left. replace (b - a)%Z with (- (a - b))%Z by lia.
    apply binary_normalize_opp. exact E.
Qed.

(** Numbers with the same key differ by a zero, unless they are the same
    infinity. *)
Lemma SFsub_same_key (x y : spec_float) :
  x <> S754_nan -> y <> S754_nan -> SFkey x = SFkey y ->
  SF64sub x y = S754_nan \/ exists s, SF64sub x y = S754_zero s.
Proof.
  intros Hx Hy Hk.
  destruct x as [sx|sx| |sx mx ex], y as [sy|sy| |sy my ey]; try congruence;
    try (destruct sx; discriminate); try (destruct sy; discriminate);
    try (destruct sx, sy; discriminate).
  - right. destruct sx, sy; simpl; eauto.
  - destruct sx, sy; try discriminate; now left.
  - right. exists false.
    assert (sx = sy /\ mx = my /\ ex = ey) as (-> & -> & ->).
    { destruct sx, sy; simpl in Hk; try discriminate; injection Hk; intros;
        repeat split; try congruence; lia. }
    unfold SF64sub, SFsub. rewrite Z.sub_diag. reflexivity.
Qed.

(** ** The primitive operations *)

Lemma eqb_refl (x : float) : is_nan x = false -> (x =? x) = true.
Proof.
  intros H. rewrite eqb_spec. apply SFeqb_refl. now apply is_nan_false.
Qed.

Lemma sub_not_nan_l (x y : float) : is_nan (x - y) = false -> is_nan x = false.
Proof.
  intros H. destruct (is_nan x) eqn:E; [|reflexivity].
  apply is_nan_eq in E. subst x. now rewrite sub_nan_l in H.
Qed.

Lemma sub_not_nan_r (x y : float) : is_nan (x - y) = false -> is_nan y = false.
Proof.
  intros H. destruct (is_nan y) eqn:E; [|reflexivity].
  apply is_nan_eq in E. subst y. now rewrite sub_nan_r in H.
Qed.

Lemma ltb_antisym (x y : float) : (x <? y) = true -> (y <? x) = false.
Proof.
  intros H. apply ltb_key in H. destruct H as (_ & _ & H).
  apply ltb_false_key. now left.
Qed.

Lemma trichotomy (x y : float) :
  is_nan x = false -> is_nan y = false ->
  (x <? y) = true \/ (y <? x) = true \/ fkey x = fkey y.
Proof.
  intros Hx Hy.
  destruct (key_compare (fkey x) (fkey y)) eqn:E.
  - right; right. now apply key_compare_eq.
  - left. apply ltb_key. repeat split; try assumption. now apply key_compare_lt.
  - right; left. apply ltb_key. repeat split; try assumption. now apply key_compare_gt.
Qed.

Lemma sub_nonneg (x y : float) : (x <? y) = true -> (0 <=? y - x) = true.
Proof.
  intros H. apply ltb_key in H. destruct H as (Hx & Hy & Hlt).
  rewrite leb_spec, sub_spec, Prim2SF_zero.
  apply SFsub_ordered; try apply Prim2SF_valid; try (now apply is_nan_false).
  exact Hlt.
Qed.

Lemma leb_zero_not_nan (x : float) : (0 <=? x) = true -> is_nan x = false.
Proof. intros H. apply leb_key in H. tauto. Qed.

Lemma sub_zero_r (x : float) : x - 0 = x.
Proof.
  apply Prim2SF_inj. rewrite sub_spec, Prim2SF_zero.
  by_class x.
Qed.

(** For [x < y], [0 - (y - x)] and [x - y] are the same number. *)
Lemma sub_swap_eqb (x y : float) :
  (x <? y) = true -> (0 - (y - x) =? x - y) = true.
Proof.
  intros H. pose proof (sub_nonneg x y H) as Hnn.
  rewrite leb_spec, Prim2SF_zero, sub_spec in Hnn.
  rewrite eqb_spec, !sub_spec, Prim2SF_zero.
  destruct (SFsub_swap (Prim2SF y) (Prim2SF x)) as [E|(s & s' & E & E')].
  - rewrite E.
    destruct (SF64sub (Prim2SF y) (Prim2SF x)) as [[]|[]| |[] m e];
      try discriminate; try reflexivity;
      apply SFeqb_refl; discriminate.
  - rewrite E, E'. destruct s'; reflexivity.
Qed.

Lemma sub_same_key (x y : float) :
  is_nan (x - y) = false -> fkey x = fkey y -> (0 - 0 =? x - y) = true.
Proof.
  intros Hn Hk.
  pose proof (sub_not_nan_l _ _ Hn) as Hx. pose proof (sub_not_nan_r _ _ Hn) as Hy.
  apply is_nan_false in Hn, Hx, Hy. rewrite sub_spec in Hn.
  rewrite eqb_spec, !sub_spec.
  destruct (SFsub_same_key _ _ Hx Hy Hk) as [E|(s & E)].
  - contradiction.
  - rewrite E. reflexivity.
Qed.

Lemma is_infinity_spec (x : float) :
  is_infinity x = true <-> exists s, Prim2SF x = S754_infinity s.
Proof.
  unfold is_infinity. rewrite eqb_spec, abs_spec.
  change (Prim2SF infinity) with (S754_infinity false).
  destruct (Prim2SF x) as [s|s| |s m e]; simpl; split;
    try discriminate; try (intros (s' & H); discriminate); eauto.
Qed.

(** A float that is neither NaN nor infinite is a zero or a finite
    number. *)
Lemma finite_cases (x : float) :
  is_nan x = false -> is_infinity x = false ->
  (exists s, Prim2SF x = S754_zero s) \/ (exists s m e, Prim2SF x = S754_finite s m e).
Proof.
  intros Hn Hi. apply is_nan_false in Hn.
  destruct (Prim2SF x) as [s|s| |s m e] eqn:E; eauto.
  - assert (is_infinity x = true) by (apply is_infinity_spec; eauto). congruence.
  - congruence.
Qed.

Lemma mul_zero_r (x : float) :
  is_nan x = false -> is_infinity x = false -> (x * 0 =? 0) = true.
Proof.
  intros Hn Hi. rewrite eqb_spec, mul_spec, Prim2SF_zero.
  destruct (finite_cases x Hn Hi) as [(s & ->)|(s & m & e & ->)]; reflexivity.
Qed.

Lemma mul_zero_l (x : float) :
  is_nan x = false -> is_infinity x = false -> (0 * x =? 0) = true.
Proof.
  intros Hn Hi. rewrite eqb_spec, mul_spec, Prim2SF_zero.
  destruct (finite_cases x Hn Hi) as [(s & ->)|(s & m & e & ->)]; reflexivity.
Qed.

Lemma sub_diag (x : float) : is_finite x = true -> x - x = 0.
Proof.
  unfold is_finite. intros H. apply negb_true_iff, orb_false_iff in H.
  destruct H as [Hn Hi]. apply Prim2SF_inj. rewrite sub_spec, Prim2SF_zero.
  destruct (finite_cases x Hn Hi) as [(s & ->)|(s & m & e & ->)].
  - destruct s; reflexivity.
  - unfold SF64sub, SFsub. rewrite Z.sub_diag. reflexivity.
Qed.

(** When [x < y] the difference [x - y] is infinite exactly when
    [y - x] is. *)
Lemma sub_swap_infinity (x y : float) :
  is_infinity (x - y) = is_infinity (y - x).
Proof.
  assert (H : forall a b, is_infinity (a - b) = true -> is_infinity (b - a) = true).
  { intros a b Hab. apply is_infinity_spec in Hab. destruct Hab as (s & Hs).
    apply is_infinity_spec. rewrite sub_spec in Hs |- *.
    destruct (SFsub_swap (Prim2SF b) (Prim2SF a)) as [E|(s1 & s2 & E1 & E2)].
    - rewrite Hs in E.
      destruct (SF64sub (Prim2SF b) (Prim2SF a)) as [s'|s'| |s' m e];
        simpl in E; try discriminate; eauto.
    - congruence. }
  destruct (is_infinity (x - y)) eqn:E1, (is_infinity (y - x)) eqn:E2; auto.
  - apply H in E1. congruence.
  - apply H in E2. congruence.
Qed.

(** ** Values up to the sign of zero *)

Lemma same_value_spec (a b : float) :
  same_value a b = true <->
  (Prim2SF a = S754_nan /\ Prim2SF b = S754_nan) \/
  SFeqb (Prim2SF a) (Prim2SF b) = true.
Proof.
  unfold same_value. rewrite orb_true_iff, andb_true_iff, !is_nan_spec, eqb_spec.
  reflexivity.
Qed.

Lemma same_value_refl (a : float) : same_value a a = true.
Proof.
  apply same_value_spec. destruct (Prim2SF a) eqn:E; try (now left);
    right; apply SFeqb_refl; discriminate.
Qed.

(** Adding the sum to a zero accumulator first does not change the value
    of a quotient: only the sign of a zero numerator can differ. *)
Lemma add_zero_div (y w : float) : same_value ((0 + y) / w) (y / w) = true.
Proof.
  destruct (Prim2SF y) as [s|s| |s m e] eqn:E.
  - apply same_value_spec. rewrite !div_spec, add_spec, Prim2SF_zero, E.
    destruct s, (Prim2SF w) as [[]|[]| |[] ? ?]; simpl; auto.
  - replace (0 + y) with y; [apply same_value_refl|].
    apply Prim2SF_inj. rewrite add_spec, Prim2SF_zero, E. reflexivity.
  - replace (0 + y) with y; [apply same_value_refl|].
    apply Prim2SF_inj. rewrite add_spec, Prim2SF_zero, E. reflexivity.
  - replace (0 + y) with y; [apply same_value_refl|].
    apply Prim2SF_inj. rewrite add_spec, Prim2SF_zero, E. reflexivity.
Qed.

(** ** Infinities *)

Lemma infinity_not_nan (x : float) : is_infinity x = true -> is_nan x = false.
Proof.
  intros H. apply is_infinity_spec in H. destruct H as (s & H).
  apply is_nan_false. rewrite H. discriminate.
Qed.

Lemma infinity_not_zero (x : float) :
  is_infinity x = true -> (0 - 0 =? x) = true -> False.
Proof.
  intros H Hz. apply is_infinity_spec in H. destruct H as (s & H).
  rewrite eqb_spec, H in Hz. destruct s; discriminate.
Qed.

Lemma mul_infinity_zero (x : float) : is_infinity x = true -> is_nan (x * 0) = true.
Proof.
  intros H. apply is_infinity_spec in H. destruct H as (s & H).
  apply is_nan_spec. rewrite mul_spec, H. reflexivity.
Qed.

Lemma mul_zero_infinity (x : float) : is_infinity x = true -> is_nan (0 * x) = true.
Proof.
  intros H. apply is_infinity_spec in H. destruct H as (s & H).
  apply is_nan_spec. rewrite mul_spec, H. reflexivity.
Qed.

End IEEE.

(** * Magnitudes of binary64 results *)

Module Magnitude.

Import IEEE.

(** ** Magnitudes

    Rounding a mantissa below [2^K] at exponent [e] yields an exponent
    of at most [max e (K+e-53) + 1]: products and sums of numbers of
    bounded exponent do not overflow. *)

Lemma shr_1_halves (mrs : shr_record) :
  (0 <= shr_m mrs)%Z ->
  (0 <= shr_m (shr_1 mrs) /\
   2 * shr_m (shr_1 mrs) <= shr_m mrs < 2 * (shr_m (shr_1 mrs) + 1))%Z.
Proof.
  destruct mrs as [m r s]. destruct m as [|[p|p|]|p]; simpl; lia.
Qed.

Lemma iter_shr_1_halves (p : positive) (mrs : shr_record) :
  (0 <= shr_m mrs)%Z ->
  (0 <= shr_m (iter_pos shr_1 p mrs) /\
   2 ^ Zpos p * shr_m (iter_pos shr_1 p mrs) <= shr_m mrs
     < 2 ^ Zpos p * (shr_m (iter_pos shr_1 p mrs) + 1))%Z.
Proof.
  revert mrs. induction p as [p IH|p IH|]; intros mrs Hm; cbn [iter_pos].
  - destruct (shr_1_halves mrs Hm) as (H0 & H1).
    destruct (IH _ H0) as (H2 & H3).
    destruct (IH _ H2) as (H4 & H5).
    split; [exact H4|].
    replace (Zpos p~1) with (Zpos p + Zpos p + 1)%Z by lia.
    rewrite !Z.pow_add_r by lia. change (2 ^ 1)%Z with 2%Z.
    assert (Hp : (0 < 2 ^ Zpos p)%Z) by (apply Z.pow_pos_nonneg; lia).
    nia.
  - destruct (IH _ Hm) as (H2 & H3).
    destruct (IH _ H2) as (H4 & H5).
    split; [exact H4|].
    replace (Zpos p~0) with (Zpos p + Zpos p)%Z by lia.
    rewrite !Z.pow_add_r by lia.
    assert (Hp : (0 < 2 ^ Zpos p)%Z) by (apply Z.pow_pos_nonneg; lia).
    nia.
  - change (2 ^ 1)%Z with 2%Z. apply shr_1_halves, Hm.
Qed.

Lemma Zdigits2_bounds (m : Z) :
  (0 < m)%Z -> (2 ^ (Zdigits2 m - 1) <= m < 2 ^ Zdigits2 m)%Z.
Proof.
  destruct m as [|p|p]; try lia. intros _. apply digits2_pos_bounds.
Qed.

Lemma Zdigits2_le (m K : Z) :
  (0 <= m < 2 ^ K)%Z -> (0 <= K)%Z -> (Zdigits2 m <= K)%Z.
Proof.
  intros [H0 H1] HK. destruct (Z.eq_dec m 0) as [->|Hne]; [simpl; lia|].
  destruct (Zdigits2_bounds m ltac:(lia)) as [Hlo _].
  destruct (Z.le_gt_cases (Zdigits2 m) K) as [H|H]; [exact H|].
  assert (2 ^ K <= 2 ^ (Zdigits2 m - 1))%Z by (apply Z.pow_le_mono_r; lia).
  lia.
Qed.

Lemma shr_record_of_loc_m (m : Z) (l : location) :
  shr_m (shr_record_of_loc m l) = m.
Proof. destruct l as [|[]]; reflexivity. Qed.

(** One truncation step: the exponent becomes [max e (fexp (d+e))], the
    mantissa stays below [2^53], and above zero when [-1074 <= e]. *)
Lemma shr_fexp_bounds (m e : Z) (l : location) :
  (0 <= m)%Z ->
  let r := shr_fexp prec emax m e l in
  (0 <= shr_m (fst r) < 2 ^ 53)%Z /\
  (snd r = Z.max e (fexp prec emax (Zdigits2 m + e)))%Z /\
  ((0 < m)%Z -> (-1074 <= e)%Z -> (0 < shr_m (fst r))%Z).
Proof.
  intros Hm. unfold shr_fexp, shr.
  assert (Hf : fexp prec emax (Zdigits2 m + e) = Z.max (Zdigits2 m + e - 53) (-1074))
    by reflexivity.
  set (f := fexp prec emax (Zdigits2 m + e)) in *.
  assert (Hd : (0 < m -> 2 ^ (Zdigits2 m - 1) <= m < 2 ^ Zdigits2 m)%Z)
    by apply Zdigits2_bounds.
  assert (Hd0 : (0 <= Zdigits2 m)%Z) by (destruct m; simpl; lia).
  destruct (f - e)%Z as [|p|p] eqn:E; cbn [fst snd]; rewrite ?shr_record_of_loc_m.
  - split; [|split; [lia|auto]].
    split; [exact Hm|].
    destruct (Z.eq_dec m 0) as [->|Hne]; [reflexivity|].
    apply Z.lt_le_trans with (2 ^ Zdigits2 m)%Z; [apply Hd; lia|].
    apply Z.pow_le_mono_r; lia.
  - pose proof (iter_shr_1_halves p (shr_record_of_loc m l)) as H.
    rewrite shr_record_of_loc_m in H. destruct (H Hm) as (H0 & H1 & H2).
    set (m' := shr_m (iter_pos shr_1 p (shr_record_of_loc m l))) in *.
    assert (Hp : (0 < 2 ^ Zpos p)%Z) by (apply Z.pow_pos_nonneg; lia).
    split; [|split; [lia|]].
    + split; [exact H0|].
      destruct (Z.eq_dec m 0) as [->|Hne]; [nia|].
      destruct (Hd ltac:(lia)) as [_ Hhi].
      assert (Hle : (2 ^ Zdigits2 m <= 2 ^ (Zpos p + 53))%Z)
        by (apply Z.pow_le_mono_r; lia).
      rewrite Z.pow_add_r in Hle by lia.
      assert (Hlt : (2 ^ Zpos p * m' < 2 ^ Zpos p * 2 ^ 53)%Z) by lia.
      apply Z.mul_lt_mono_pos_l in Hlt; assumption.
    + intros Hpos He.
      destruct (Hd Hpos) as [Hlo _].
      assert (Hn : (Zpos p = Zdigits2 m - 53)%Z) by lia.
      assert (Hge : (2 ^ (Zpos p + 52) <= 2 ^ (Zdigits2 m - 1))%Z)
        by (apply Z.pow_le_mono_r; lia).
      rewrite Z.pow_add_r in Hge by lia.
      assert (Hlt : (2 ^ Zpos p * 2 ^ 52 < 2 ^ Zpos p * (m' + 1))%Z) by lia.
      apply Z.mul_lt_mono_pos_l in Hlt; [|assumption].
      assert (0 < 2 ^ 52)%Z by reflexivity. lia.
  - split; [|split; [lia|auto]].
    split; [exact Hm|].
    destruct (Z.eq_dec m 0) as [->|Hne]; [reflexivity|].
    apply Z.lt_le_trans with (2 ^ Zdigits2 m)%Z; [apply Hd; lia|].
    apply Z.pow_le_mono_r; lia.
Qed.

Lemma round_nearest_even_bounds (m : Z) (l : location) :
  (m <= round_nearest_even m l <= m + 1)%Z.
Proof. destruct l as [|[]]; simpl; try destruct (Z.even m); lia. Qed.

(** Rounding a mantissa below [2^K]: no overflow while the bound [E+1]
    is an exponent of the format. *)
Lemma binary_round_aux_below (sx : bool) (mx ex : Z) (lx : location) (K E : Z) :
  (0 <= mx < 2 ^ K)%Z -> (0 <= K)%Z ->
  (ex <= E)%Z -> (K + ex - 53 <= E)%Z -> (-1074 <= E)%Z -> (E + 1 <= 971)%Z ->
  SFbelow (E + 1) (binary_round_aux prec emax sx mx ex lx).
Proof.
  intros Hm HK He HKe Hmin Hmax. unfold binary_round_aux.
  pose proof (shr_fexp_bounds mx ex lx ltac:(lia)) as H1.
  pose proof (Zdigits2_le mx K Hm HK) as Hd.
  destruct (shr_fexp prec emax mx ex lx) as [mrs' e']. cbn [fst snd] in H1.
  destruct H1 as (Hm' & He' & _).
  assert (He'E : (e' <= E)%Z).
  { rewrite He'. change (fexp prec emax (Zdigits2 mx + ex))
      with (Z.max (Zdigits2 mx + ex - 53) (-1074)). lia. }
  pose proof (round_nearest_even_bounds (shr_m mrs') (loc_of_shr_record mrs')) as Hr.
  set (m2 := round_nearest_even (shr_m mrs') (loc_of_shr_record mrs')) in *.
  pose proof (shr_fexp_bounds m2 e' loc_Exact ltac:(lia)) as H2.
  assert (Hd2 : (Zdigits2 m2 <= 54)%Z).
  { apply Zdigits2_le; [|lia]. change (2 ^ 54)%Z with (2 ^ 53 * 2)%Z. lia. }
  destruct (shr_fexp prec emax m2 e' loc_Exact) as [mrs'' e'']. cbn [fst snd] in H2.
  destruct H2 as (Hm'' & He'' & _).
  assert (He''E : (e'' <= E + 1)%Z).
  { rewrite He''. change (fexp prec emax (Zdigits2 m2 + e'))
      with (Z.max (Zdigits2 m2 + e' - 53) (-1074)). lia. }
  destruct (shr_m mrs'') as [|m|m]; [exact I| |lia].
  change (emax - prec)%Z with 971%Z.
  destruct (e'' <=? 971)%Z eqn:Ec; [exact He''E|].
  apply Z.leb_gt in Ec. lia.
Qed.

(** Rounding a mantissa above zero at an exponent of the format never
    gives zero. *)
Lemma binary_round_aux_not_zero (sx : bool) (mx ex : Z) (lx : location) :
  (0 < mx)%Z -> (-1074 <= ex)%Z ->
  (exists m e, binary_round_aux prec emax sx mx ex lx = S754_finite sx m e) \/
  binary_round_aux prec emax sx mx ex lx = S754_infinity sx.
Proof.
  intros Hm He. unfold binary_round_aux.
  pose proof (shr_fexp_bounds mx ex lx ltac:(lia)) as H1.
  destruct (shr_fexp prec emax mx ex lx) as [mrs' e']. cbn [fst snd] in H1.
  destruct H1 as (Hm' & He' & Hpos'). specialize (Hpos' Hm He).
  pose proof (round_nearest_even_bounds (shr_m mrs') (loc_of_shr_record mrs')) as Hr.
  set (m2 := round_nearest_even (shr_m mrs') (loc_of_shr_record mrs')) in *.
  pose proof (shr_fexp_bounds m2 e' loc_Exact ltac:(lia)) as H2.
  destruct (shr_fexp prec emax m2 e' loc_Exact) as [mrs'' e'']. cbn [fst snd] in H2.
  destruct H2 as (Hm'' & He'' & Hpos'').
  specialize (Hpos'' ltac:(lia) ltac:(lia)).
  destruct (shr_m mrs'') as [|m|m]; [lia| |lia].
  destruct (e'' <=? emax - prec)%Z; [left; eauto | now right].
Qed.

Lemma SFbelow_mono (E E' : Z) (r : spec_float) :
  (E <= E')%Z -> SFbelow E r -> SFbelow E' r.
Proof. destruct r as [s|s| |s m e]; simpl; auto. lia. Qed.

Lemma binary_round_below (sx : bool) (m : positive) (e K E : Z) :
  (Zpos m < 2 ^ K)%Z -> (0 <= K)%Z ->
  (e <= E)%Z -> (K + e - 53 <= E)%Z -> (-1074 <= E)%Z -> (E + 1 <= 971)%Z ->
  SFbelow (E + 1) (binary_round prec emax sx m e).
Proof.
  intros Hm HK He HKe Hmin Hmax. unfold binary_round, shl_align.
  destruct (fexp prec emax (Zpos (digits2_pos m) + e) - e)%Z as [|p|p] eqn:Ep.
  - apply (binary_round_aux_below _ _ _ _ K); lia.
  - apply (binary_round_aux_below _ _ _ _ K); lia.
  - apply (binary_round_aux_below _ _ _ _ (K + Zpos p)); try lia.
    rewrite iter_xO_value, Z.pow_add_r by lia.
    assert (0 < 2 ^ Zpos p)%Z by (apply Z.pow_pos_nonneg; lia).
    split; [lia|]. apply Z.mul_lt_mono_pos_r; assumption.
Qed.

Lemma binary_round_not_zero (sx : bool) (m : positive) (e : Z) :
  (-1074 <= e)%Z ->
  (exists m' e', binary_round prec emax sx m e = S754_finite sx m' e') \/
  binary_round prec emax sx m e = S754_infinity sx.
Proof.
  intros He. unfold binary_round, shl_align.
  assert (Hf : (-1074 <= fexp prec emax (Zpos (digits2_pos m) + e))%Z).
  { change (fexp prec emax (Zpos (digits2_pos m) + e))
      with (Z.max (Zpos (digits2_pos m) + e - 53) (-1074)). lia. }
  destruct (fexp prec emax (Zpos (digits2_pos m) + e) - e)%Z as [|p|p] eqn:Ep;
    apply binary_round_aux_not_zero; lia.
Qed.

(** The product of two numbers of bounded exponent. *)
Lemma SFmul_below (x y : spec_float) (E1 E2 E : Z) :
  valid_binary x = true -> valid_binary y = true ->
  SFbelow E1 x -> SFbelow E2 y ->
  (E1 + E2 + 54 <= E)%Z -> (-1073 <= E)%Z -> (E <= 971)%Z ->
  SFbelow E (SF64mul x y).
Proof.
  intros Vx Vy Hx Hy HE Hmin Hmax.
  destruct x as [sx|sx| |sx mx ex], y as [sy|sy| |sy my ey]; simpl in Hx, Hy;
    try contradiction; try exact I.
  simpl in Vx, Vy. apply bounded_mantissa in Vx, Vy.
  destruct Vx as (_ & Hmx & _), Vy as (_ & Hmy & _). unfold SF64mul; cbn [SFmul].
  replace E with (E - 1 + 1)%Z by lia.
  apply (binary_round_aux_below _ _ _ _ 106); try lia.
  rewrite Pos2Z.inj_mul. change (2 ^ 106)%Z with (2 ^ 53 * 2 ^ 53)%Z.
  split; [lia|]. apply Z.mul_lt_mono_nonneg; lia.
Qed.

Lemma shl_align_bound (m : positive) (e ez : Z) :
  (ez <= e)%Z -> (Zpos m < 2 ^ 53)%Z ->
  (0 < Zpos (fst (shl_align m e ez)) < 2 ^ (53 + e - ez))%Z.
Proof.
  intros He Hm. rewrite shl_align_value by exact He.
  replace (53 + e - ez)%Z with (53 + (e - ez))%Z by lia.
  rewrite Z.pow_add_r by lia.
  assert (0 < 2 ^ (e - ez))%Z by (apply Z.pow_pos_nonneg; lia).
  split; [lia|]. apply Z.mul_lt_mono_pos_r; assumption.
Qed.

Lemma binary_normalize_below (d e K E : Z) :
  (Z.abs d < 2 ^ K)%Z -> (0 <= K)%Z ->
  (e <= E)%Z -> (K + e - 53 <= E)%Z -> (-1074 <= E)%Z -> (E + 1 <= 971)%Z ->
  SFbelow (E + 1) (binary_normalize prec emax d e false).
Proof.
  intros Hd HK He HKe Hmin Hmax. destruct d as [|p|p]; simpl.
  - exact I.
  - apply (binary_round_below _ _ _ K); simpl in Hd; lia.
  - apply (binary_round_below _ _ _ K); simpl in Hd; lia.
Qed.

(** The sum of two numbers of bounded exponent. *)
Lemma SFadd_below (x y : spec_float) (E : Z) :
  valid_binary x = true -> valid_binary y = true ->
  SFbelow E x -> SFbelow E y -> (E + 2 <= 971)%Z ->
  SFbelow (E + 2) (SF64add x y).
Proof.
  intros Vx Vy Hx Hy Hmax.
  destruct x as [sx|sx| |sx mx ex], y as [sy|sy| |sy my ey]; simpl in Hx, Hy;
    try contradiction.
  - destruct sx, sy; exact I.
  - simpl. lia.
  - simpl. lia.
  - simpl in Vx, Vy. apply bounded_mantissa in Vx, Vy.
    destruct Vx as (Hex & Hmx & _), Vy as (Hey & Hmy & _).
    unfold SF64add; cbn [SFadd].
    set (ez := Z.min ex ey).
    pose proof (shl_align_bound mx ex ez ltac:(lia) Hmx) as H1.
    pose proof (shl_align_bound my ey ez ltac:(lia) Hmy) as H2.
    set (a := Zpos (fst (shl_align mx ex ez))) in *.
    set (b := Zpos (fst (shl_align my ey ez))) in *.
    replace (E + 2)%Z with (E + 1 + 1)%Z by lia.
    apply (binary_normalize_below _ _ (54 + Z.max ex ey - ez)); try lia.
    assert (Ha : (2 ^ (53 + ex - ez) <= 2 ^ (53 + Z.max ex ey - ez))%Z)
      by (apply Z.pow_le_mono_r; lia).
    assert (Hb : (2 ^ (53 + ey - ez) <= 2 ^ (53 + Z.max ex ey - ez))%Z)
      by (apply Z.pow_le_mono_r; lia).
    replace (54 + Z.max ex ey - ez)%Z with (1 + (53 + Z.max ex ey - ez))%Z by lia.
    rewrite Z.pow_add_r by lia. change (2 ^ 1)%Z with 2%Z.
    destruct sx, sy; unfold cond_Zopp; lia.
Qed.

(** The sum of two finite numbers that are zero or above: zero or above,
    and above zero as soon as one of them is. *)
Lemma SFadd_weight (x y : spec_float) (E : Z) :
  valid_binary x = true -> valid_binary y = true ->
  SFbelow E x -> SFbelow E y -> (E + 2 <= 971)%Z ->
  SFweight x -> SFweight y ->
  SFweight (SF64add x y) /\
  (SFpositive x \/ SFpositive y -> SFpositive (SF64add x y)).
Proof.
  intros Vx Vy Hx Hy Hmax Nx Ny.
  pose proof (SFadd_below x y E Vx Vy Hx Hy Hmax) as Hb.
  destruct x as [sx|sx| |[] mx ex], y as [sy|sy| |[] my ey]; simpl in Nx, Ny;
    try contradiction.
  - split; [destruct sx, sy; exact I|]. simpl. tauto.
  - split; [exact I|]. intros _. exact I.
  - split; [exact I|]. intros _. exact I.
  - simpl in Vx, Vy. apply bounded_mantissa in Vx, Vy.
    destruct Vx as (Hex & _), Vy as (Hey & _).
    unfold SF64add in *; cbn [SFadd cond_Zopp] in *.
    set (ez := Z.min ex ey) in *.
    change (binary_normalize prec emax
              (Zpos (fst (shl_align mx ex ez)) + Zpos (fst (shl_align my ey ez)))
              ez false)
      with (binary_round prec emax false
              (fst (shl_align mx ex ez) + fst (shl_align my ey ez)) ez) in *.
    destruct (binary_round_not_zero false
                (fst (shl_align mx ex ez) + fst (shl_align my ey ez)) ez ltac:(lia))
      as [(m & e & Hr)|Hr]; rewrite Hr in *.
    + split; [exact I | intros _; exact I].
    + contradiction.
Qed.

(** A finite dividend over a finite divisor other than zero: never NaN. *)
Lemma SFdiv_not_nan (x y : spec_float) (E : Z) :
  SFbelow E x -> (exists s m e, y = S754_finite s m e) ->
  SF64div x y <> S754_nan.
Proof.
  intros Hx (sy & my & ey & ->).
  destruct x as [sx|sx| |sx mx ex]; simpl in Hx; try contradiction.
  - discriminate.
  - unfold SF64div; cbn [SFdiv]. unfold SFdiv_core_binary.
    set (m' := match (ex - ey - _)%Z with Z0 => _ | Zpos _ => _ | Zneg _ => _ end).
    assert (Hm' : (0 <= m')%Z).
    { unfold m'. destruct (ex - ey - _)%Z; try lia. apply Z.shiftl_nonneg. lia. }
    pose proof (Z.div_pos m' (Zpos my) Hm' ltac:(lia)) as Hq.
    unfold Z.div in Hq. destruct (Z.div_eucl m' (Zpos my)) as [q r].
    destruct (binary_round_aux_cases (xorb sx sy) q
                (Z.min (fexp prec emax
                          (Zdigits2 (Zpos mx) + ex - (Zdigits2 (Zpos my) + ey)))
                       (ex - ey))
                (new_location (Zpos my) r) Hq)
      as [H|[(m & e & H)|H]]; rewrite H; discriminate.
Qed.

(** ** Bounds read off comparisons *)

(** A number of magnitude at most [b] has an exponent at most that of
    [b]. *)
Lemma abs_leb_below (x b : float) (m : positive) (e : Z) :
  fkey b = (1, e, Zpos m)%Z -> (abs x <=? b) = true -> SFbelow e (Prim2SF x).
Proof.
  intros Hb H. apply leb_key in H. destruct H as (Hx & _ & Hk).
  apply is_nan_false in Hx. rewrite Hb in Hk. unfold fkey in Hk.
  rewrite abs_spec in Hx, Hk.
  destruct (Prim2SF x) as [s|s| |s mx ex]; simpl in *.
  - exact I.
  - destruct Hk as [Hk|Hk]; [lia | discriminate].
  - congruence.
  - destruct Hk as [Hk|Hk]; [lia | injection Hk; lia].
Qed.

(** A weight between [0] and [b]. *)
Lemma weight_below (w b : float) (m : positive) (e : Z) :
  fkey b = (1, e, Zpos m)%Z -> (0 <=? w) = true -> (w <=? b) = true ->
  SFweight (Prim2SF w) /\ SFbelow e (Prim2SF w).
Proof.
  intros Hb H0 H. apply leb_key in H0, H.
  destruct H0 as (_ & Hn & H0), H as (_ & _ & Hk).
  apply is_nan_false in Hn.
  rewrite Hb in Hk. unfold fkey in *. rewrite Prim2SF_zero in H0.
  destruct (Prim2SF w) as [s|[]| |[] mx ex]; simpl in *;
    try (split; exact I); try congruence;
    try (exfalso; destruct H0 as [H0|H0]; [lia|discriminate]);
    try (exfalso; destruct Hk as [Hk|Hk]; [lia|discriminate]).
  split; [exact I|]. destruct Hk as [Hk|Hk]; [lia | injection Hk; lia].
Qed.

Lemma positive_weight (w : float) :
  SFbelow 971 (Prim2SF w) -> (0 <? w) = true -> SFpositive (Prim2SF w).
Proof.
  intros Hb H. apply ltb_key in H. destruct H as (_ & _ & H).
  unfold fkey in H. rewrite Prim2SF_zero in H.
  destruct (Prim2SF w) as [s|[]| |[] mx ex]; simpl in *; try contradiction;
    try exact I; lia.
Qed.

(** ** Sums of bounded terms *)

Lemma dot_acc_below (B : Z) (l : list (float * float)) :
  forall (acc : float) (i : nat),
    (forall p, In p l -> SFbelow B (Prim2SF (fst p * snd p))) ->
    SFbelow (B + 2 * Z.of_nat i) (Prim2SF acc) ->
    (B + 2 * Z.of_nat (i + length l) <= 971)%Z ->
    SFbelow (B + 2 * Z.of_nat (i + length l))
            (Prim2SF (fold_left (fun acc p => acc + fst p * snd p) l acc)).
Proof.
  induction l as [|p l IH]; intros acc i Hl Hacc Hmax; cbn [fold_left length] in *.
  - now rewrite Nat.add_0_r.
  - replace (i + S (length l))%nat with (S i + length l)%nat in * by lia.
    apply IH; [intros q Hq; apply Hl; now right | | exact Hmax].
    rewrite add_spec.
    replace (B + 2 * Z.of_nat (S i))%Z with (B + 2 * Z.of_nat i + 2)%Z by lia.
    apply SFadd_below; try apply Prim2SF_valid; try assumption; [|lia].
    apply SFbelow_mono with B; [lia|]. apply Hl. now left.
Qed.

(** The weighted sum of a window of bounded cells is a finite number. *)
Lemma dot_below (Ex Ew : Z) (window weights : list float) :
  (forall x, In x window -> SFbelow Ex (Prim2SF x)) ->
  (forall w, In w weights -> SFbelow Ew (Prim2SF w)) ->
  (-1073 <= Ex + Ew + 54)%Z ->
  (Ex + Ew + 54 + 2 * Z.of_nat (length weights) <= 971)%Z ->
  SFbelow 971 (Prim2SF (dot window weights)).
Proof.
  intros Hx Hw Hmin Hmax. unfold dot.
  assert (Hlen : (length (combine window weights) <= length weights)%nat)
    by (rewrite length_combine; lia).
  apply SFbelow_mono
    with (Ex + Ew + 54 + 2 * Z.of_nat (0 + length (combine window weights)))%Z;
    [lia|].
  apply dot_acc_below; [|exact I|lia].
  intros [x w] Hp. apply in_combine_l in Hp as Hpx. apply in_combine_r in Hp as Hpw.
  cbn [fst snd]. rewrite mul_spec.
  apply (SFmul_below _ _ Ex Ew); try apply Prim2SF_valid; auto; lia.
Qed.

Lemma sum_acc_weight (E : Z) (l : list float) :
  forall (acc : float) (i : nat),
    (forall w, In w l -> SFweight (Prim2SF w) /\ SFbelow E (Prim2SF w)) ->
    SFweight (Prim2SF acc) -> SFbelow (E + 2 * Z.of_nat i) (Prim2SF acc) ->
    (E + 2 * Z.of_nat (i + length l) <= 971)%Z ->
    SFweight (Prim2SF (fold_left add l acc)) /\
    SFbelow (E + 2 * Z.of_nat (i + length l)) (Prim2SF (fold_left add l acc)) /\
    (SFpositive (Prim2SF acc) \/ (exists w, In w l /\ SFpositive (Prim2SF w)) ->
     SFpositive (Prim2SF (fold_left add l acc))).
Proof.
  induction l as [|w l IH]; intros acc i Hl Hacc Hb Hmax; cbn [fold_left length] in *.
  - rewrite Nat.add_0_r. repeat split; try assumption.
    intros [H|(w & [] & _)]. exact H.
  - replace (i + S (length l))%nat with (S i + length l)%nat in * by lia.
    destruct (Hl w (or_introl eq_refl)) as (Hww & Hwb).
    assert (Hwb' : SFbelow (E + 2 * Z.of_nat i) (Prim2SF w))
      by (apply SFbelow_mono with E; [lia | exact Hwb]).
    destruct (SFadd_weight (Prim2SF acc) (Prim2SF w) (E + 2 * Z.of_nat i)
                (Prim2SF_valid _) (Prim2SF_valid _) Hb Hwb' ltac:(lia) Hacc Hww)
      as (Hs & Hpos).
    pose proof (SFadd_below (Prim2SF acc) (Prim2SF w) (E + 2 * Z.of_nat i)
                  (Prim2SF_valid _) (Prim2SF_valid _) Hb Hwb' ltac:(lia)) as Hsb.
    rewrite <- add_spec in Hs, Hpos, Hsb.
    replace (E + 2 * Z.of_nat i + 2)%Z with (E + 2 * Z.of_nat (S i))%Z in Hsb by lia.
    destruct (IH (acc + w) (S i) (fun v Hv => Hl v (or_intror Hv)) Hs Hsb Hmax)
      as (H1 & H2 & H3).
    split; [exact H1|]. split; [exact H2|].
    intros [H|(v & [<-|Hv] & Hvp)]; apply H3.
    + left. apply Hpos. now left.
    + left. apply Hpos. now right.
    + right. eauto.
Qed.

(** The sum of bounded weights that are zero or above, one of them
    above zero, is a finite number above zero. *)
Lemma np_sum_positive (E : Z) (l : list float) :
  (forall w, In w l -> SFweight (Prim2SF w) /\ SFbelow E (Prim2SF w)) ->
  (exists w, In w l /\ SFpositive (Prim2SF w)) ->
  (E + 2 * Z.of_nat (length l) <= 971)%Z ->
  SFpositive (Prim2SF (np_sum l)).
Proof.
  intros Hl (w & Hw & Hp) Hmax. destruct l as [|x l]; [destruct Hw|].
  cbn [np_sum]. cbn [length] in Hmax.
  destruct (Hl x (or_introl eq_refl)) as (Hxw & Hxb).
  destruct (sum_acc_weight E l x 0 (fun v Hv => Hl v (or_intror Hv)) Hxw
              ltac:(apply SFbelow_mono with E; [lia | exact Hxb]) ltac:(lia))
    as (_ & _ & H).
  apply H. destruct Hw as [<-|Hw]; [now left | right; eauto].
Qed.

(** A finite number over a finite number above zero is not NaN. *)
Lemma div_number (x y : float) :
  SFbelow 971 (Prim2SF x) -> SFpositive (Prim2SF y) -> is_nan (x / y) = false.
Proof.
  intros Hx Hy. apply is_nan_false. rewrite div_spec.
  apply (SFdiv_not_nan _ _ 971 Hx).
  destruct (Prim2SF y) as [s|s| |[] m e]; try contradiction. eauto.
Qed.

End Magnitude.

(** * The smoother *)

Module Smoother.

Import IEEE Magnitude DemandNinja.

Lemma fillna_nan (x : float) : fillna nan x = x.
Proof.
  unfold fillna, isnull. destruct (is_nan x) eqn:E; [|reflexivity].
  symmetry. now apply is_nan_eq.
Qed.

Lemma map_fillna_nan (l : list float) : map (fillna nan) l = l.
Proof. induction l as [|x l IH]; simpl; [|rewrite fillna_nan, IH]; reflexivity. Qed.

Lemma dot_acc_nan (l : list (float * float)) :
  fold_left (fun acc p => acc + fst p * snd p) l nan = nan.
Proof. induction l as [|p l IH]; simpl; [|rewrite add_nan_l]; auto. Qed.

Lemma dot_acc_hits_nan (l : list (float * float)) (acc : float) :
  Exists (fun p => fst p = nan) l ->
  fold_left (fun acc p => acc + fst p * snd p) l acc = nan.
Proof.
  intros H. revert acc. induction H as [p l Hp | p l _ IH]; intros acc; simpl.
  - rewrite Hp, mul_nan_l, add_nan_r. apply dot_acc_nan.
  - apply IH.
Qed.

(** A NaN anywhere in the window makes the weighted sum NaN, whatever
    its weight. *)
Lemma dot_nan (window weights : list float) (j : nat) :
  length window = length weights -> (j < length window)%nat ->
  nth j window 0 = nan -> dot window weights = nan.
Proof.
  intros Hlen Hj Hnan. unfold dot. apply dot_acc_hits_nan.
  apply Exists_exists. exists (nth j (combine window weights) (0, 0)). split.
  - apply nth_In. rewrite length_combine. lia.
  - rewrite combine_nth by exact Hlen. exact Hnan.
Qed.

(** Row [t] of the rolling window, cell by cell. *)
Lemma nth_windows (W : nat) (xs : DataArray) (t : nat) :
  (t < length xs)%nat ->
  nth t (windows W xs) [] =
  map (fun j => if (t + j <? W - 1)%nat then nan else nth (t + j - (W - 1)) xs nan)
      (seq 0 W).
Proof.
  intros Ht. unfold windows.
  set (f := fun t0 : nat => map _ (seq 0 W)).
  rewrite (nth_indep _ [] (f 0%nat)) by now rewrite length_map, length_seq.
  rewrite map_nth, seq_nth by exact Ht. reflexivity.
Qed.

Lemma length_windows (W : nat) (xs : DataArray) :
  length (windows W xs) = length xs.
Proof. unfold windows. now rewrite length_map, length_seq. Qed.

Lemma length_row (W : nat) (xs : DataArray) (t : nat) :
  (t < length xs)%nat -> length (nth t (windows W xs) []) = W.
Proof. intros Ht. rewrite nth_windows by exact Ht. now rewrite length_map, length_seq. Qed.

Lemma nth_row (W : nat) (xs : DataArray) (t j : nat) :
  (t < length xs)%nat -> (j < W)%nat ->
  nth j (nth t (windows W xs) []) 0 =
  if (t + j <? W - 1)%nat then nan else nth (t + j - (W - 1)) xs nan.
Proof.
  intros Ht Hj. rewrite nth_windows by exact Ht.
  set (f := fun j0 : nat => if (t + j0 <? W - 1)%nat then _ else _).
  rewrite (nth_indep _ 0 (f 0%nat)) by now rewrite length_map, length_seq.
  rewrite map_nth, seq_nth by exact Hj. reflexivity.
Qed.

(** Past the warm-up, the window of step [t] is the slice of the [W]
    steps ending at [t]. *)
Lemma full_window (W : nat) (xs : DataArray) (t : nat) :
  (0 < W)%nat -> (W - 1 <= t)%nat -> (t < length xs)%nat ->
  nth t (windows W xs) [] = firstn W (skipn (t - (W - 1)) xs).
Proof.
  intros HW Hw Ht.
  assert (Hlen : length (firstn W (skipn (t - (W - 1)) xs)) = W)
    by (rewrite length_firstn, length_skipn; lia).
  apply (nth_ext _ _ 0 0).
  - rewrite length_row by exact Ht. now rewrite Hlen.
  - intros j Hj. rewrite length_row in Hj by exact Ht.
    rewrite nth_row by assumption.
    replace (t + j <? W - 1)%nat with false by (symmetry; apply Nat.ltb_ge; lia).
    rewrite nth_firstn. apply Nat.ltb_lt in Hj as Hj'. rewrite Hj'.
    rewrite nth_skipn.
    replace (t - (W - 1) + j)%nat with (t + j - (W - 1))%nat by lia.
    apply nth_indep. lia.
Qed.

Lemma firstn_skipn_one (xs : DataArray) (t : nat) :
  (t < length xs)%nat -> firstn 1 (skipn t xs) = [nth t xs 0].
Proof.
  intros Ht. rewrite <- (Nat.add_0_r t) at 2. rewrite <- nth_skipn.
  destruct (skipn t xs) as [|y ys] eqn:E.
  - apply (f_equal (@length float)) in E. rewrite length_skipn in E. simpl in E. lia.
  - reflexivity.
Qed.

(** Without [keep_all_days] the smoother divides every weighted window
    sum by the total of the weights. *)
Lemma construct_ok (W : nat) (xs : DataArray) :
  (0 < W)%nat -> xs <> [] -> construct W xs = Ok (windows W xs).
Proof.
  intros HW Hxs. unfold construct.
  destruct W as [|W]; [lia|]. destruct xs; [congruence|]. reflexivity.
Qed.

Lemma length_pos {A : Type} (l : list A) : l <> [] -> (0 < length l)%nat.
Proof. destruct l; [congruence | simpl; lia]. Qed.

Lemma smooth_plain (xs ws : list float) :
  ws <> [] -> xs <> [] ->
  smooth_temperature_xarray xs ws false =
  Ok (map (fun window => dot window (rev ws) / xr_sum (rev ws))
          (windows (length ws) xs)).
Proof.
  intros Hws Hxs. unfold smooth_temperature_xarray. simpl.
  rewrite length_rev, construct_ok by (try apply length_pos; assumption).
  simpl. rewrite map_map. f_equal. apply map_ext. intros w.
  now rewrite map_fillna_nan.
Qed.

Lemma smooth_plain_nth (xs ws : list float) (t : nat) :
  ws <> [] -> (t < length xs)%nat ->
  exists out,
    smooth_temperature_xarray xs ws false = Ok out /\
    length out = length xs /\
    nth t out 0 =
      dot (nth t (windows (length ws) xs) []) (rev ws) / xr_sum (rev ws).
Proof.
  intros Hws Ht.
  assert (Hxs : xs <> []) by (destruct xs; [simpl in Ht; lia | discriminate]).
  eexists. split; [apply smooth_plain; assumption|]. split.
  - now rewrite length_map, length_windows.
  - set (f := fun window : list float => _ / _).
    rewrite (nth_indep _ 0 (f [])) by now rewrite length_map, length_windows.
    now rewrite map_nth.
Qed.

(** The warm-up: a window that reaches before the first step holds a
    padding NaN, so its output is NaN. *)
Lemma warm_up_nan (xs ws : list float) (t : nat) :
  (t < length xs)%nat -> (t < length ws - 1)%nat ->
  dot (nth t (windows (length ws) xs) []) (rev ws) / xr_sum (rev ws) = nan.
Proof.
  intros Ht Hw.
  rewrite (dot_nan _ _ 0).
  - apply div_nan_l.
  - now rewrite length_row, length_rev.
  - rewrite length_row by exact Ht. lia.
  - rewrite nth_row by lia.
    replace (t + 0 <? length ws - 1)%nat with true; [reflexivity|].
    symmetry. apply Nat.ltb_lt. lia.
Qed.

(** ** The normalisation loop of [keep_all_days] *)

Lemma length_assign_prefix (k : nat) (v : float) (a : DataArray) :
  length (assign_prefix k v a) = length a.
Proof.
  unfold assign_prefix. rewrite length_app, repeat_length, length_skipn. lia.
Qed.

(** A later, longer prefix assignment erases an earlier one. *)
Lemma assign_prefix_overwrites (k k' : nat) (v v' : float) (a : DataArray) :
  (k <= k')%nat ->
  assign_prefix k' v' (assign_prefix k v a) = assign_prefix k' v' a.
Proof.
  intros Hk. unfold assign_prefix at 1. rewrite length_assign_prefix.
  unfold assign_prefix at 2. apply f_equal.
  unfold assign_prefix. rewrite skipn_app, repeat_length.
  rewrite (skipn_all2 (repeat v _)) by (rewrite repeat_length; lia).
  rewrite skipn_skipn. simpl.
  destruct (Nat.le_gt_cases k (length a)) as [Hle|Hgt].
  - rewrite Nat.min_l by exact Hle.
    replace (k' - k + k)%nat with k' by lia. reflexivity.
  - rewrite !skipn_all2 by lia. reflexivity.
Qed.

Lemma adjust_normalization_prefix (weights : list float) (nf : DataArray) (m : nat) :
  fold_left
    (fun nf i => assign_prefix (i + 1) (np_sum (last_items (i + 1) weights)) nf)
    (seq 0 (S m)) nf =
  assign_prefix (S m) (np_sum (last_items (S m) weights)) nf.
Proof.
  induction m as [|m IH].
  - reflexivity.
  - rewrite seq_S, fold_left_app, IH. cbn [fold_left Nat.add].
    rewrite !Nat.add_1_r.
    apply assign_prefix_overwrites. lia.
Qed.

(** The loop runs [i] upwards and assigns the whole prefix [[:i+1]] each
    time, so its last iteration, which carries the full sum, overwrites
    every truncated sum written before it. *)
Lemma adjust_normalization_total (weights : list float) (nf : DataArray) :
  weights <> [] ->
  adjust_normalization weights nf =
  assign_prefix (length weights) (np_sum weights) nf.
Proof.
  intros Hw. unfold adjust_normalization.
  destruct (length weights) as [|m] eqn:E.
  - destruct weights; [congruence | discriminate].
  - rewrite adjust_normalization_prefix. unfold last_items.
    rewrite E, Nat.sub_diag. reflexivity.
Qed.

Lemma map_const_repeat {A : Type} (c : float) (l : list A) :
  map (fun _ => c) l = repeat c (length l).
Proof. induction l as [|x l IH]; simpl; [|rewrite IH]; reflexivity. Qed.

Lemma skipn_repeat (c : float) (k n : nat) :
  skipn k (repeat c n) = repeat c (n - k).
Proof.
  revert k. induction n as [|n IH]; intros [|k]; simpl; auto.
Qed.

Lemma assign_prefix_repeat (k n : nat) (c : float) :
  assign_prefix k c (repeat c n) = repeat c n.
Proof.
  unfold assign_prefix. rewrite repeat_length, skipn_repeat, <- repeat_app.
  f_equal. lia.
Qed.

Lemma length_map2_div (a b : list float) :
  length (map2 div a b) = Nat.min (length a) (length b).
Proof.
  revert b. induction a as [|x a IH]; intros [|y b]; simpl; auto.
Qed.

Lemma nth_map2_div (a b : list float) (t : nat) :
  (t < length a)%nat -> (t < length b)%nat ->
  nth t (map2 div a b) 0 = nth t a 0 / nth t b 0.
Proof.
  revert b t. induction a as [|x a IH]; intros [|y b] [|t]; simpl; intros;
    try lia; auto. apply IH; lia.
Qed.

Lemma map2_div_repeat (l : list float) (c : float) :
  map2 div l (repeat c (length l)) = map (fun s => s / c) l.
Proof. induction l as [|x l IH]; simpl; [|rewrite IH]; reflexivity. Qed.

(** A NaN weight makes every weighted sum NaN. *)
Lemma dot_acc_hits_nan_weight (l : list (float * float)) (acc : float) :
  Exists (fun p => snd p = nan) l ->
  fold_left (fun acc p => acc + fst p * snd p) l acc = nan.
Proof.
  intros H. revert acc. induction H as [p l Hp | p l _ IH]; intros acc; simpl.
  - rewrite Hp, mul_nan_r, add_nan_r. apply dot_acc_nan.
  - apply IH.
Qed.

Lemma dot_nan_weight (window weights : list float) :
  length window = length weights -> existsb isnull weights = true ->
  dot window weights = nan.
Proof.
  intros Hlen Hnan. unfold dot. apply dot_acc_hits_nan_weight.
  apply existsb_exists in Hnan as [w [Hin Hw]].
  apply (In_nth _ _ 0) in Hin as [j [Hj Hjw]].
  apply Exists_exists. exists (nth j (combine window weights) (0, 0)). split.
  - apply nth_In. rewrite length_combine. lia.
  - rewrite combine_nth by exact Hlen. simpl. rewrite Hjw.
    now apply is_nan_eq.
Qed.

(** Without a NaN weight, skipping the NaN weights changes nothing. *)
Lemma xr_sum_populated (weights : list float) :
  existsb isnull weights = false -> xr_sum weights = np_sum weights.
Proof.
  intros H. unfold xr_sum. apply f_equal.
  induction weights as [|w l IH]; [reflexivity|].
  simpl in H. apply orb_false_iff in H as [Hw Hl].
  cbn [map]. rewrite IH by exact Hl. unfold fillna. rewrite Hw. reflexivity.
Qed.

Lemma existsb_isnull_rev (l : list float) :
  existsb isnull (rev l) = existsb isnull l.
Proof.
  induction l as [|x l IH]; [reflexivity|].
  simpl. rewrite existsb_app, IH. simpl. rewrite orb_false_r. apply orb_comm.
Qed.

(** With [keep_all_days] and a populated series, every step, the first
    [W-1] included, is divided by the total of the weights: the loop
    writes the plain sum on the first [W] steps, which is the total
    unless a weight is NaN, and then every weighted sum is NaN. *)
Lemma smooth_keep_all_days (xs ws : list float) :
  ws <> [] -> xs <> [] -> existsb isnull xs = false ->
  smooth_temperature_xarray xs ws true =
  Ok (map (fun window => dot (map (fillna 0) window) (rev ws) / xr_sum (rev ws))
          (windows (length ws) xs)).
Proof.
  intros Hws Hxs Hnull. unfold smooth_temperature_xarray. rewrite Hnull. simpl.
  rewrite length_rev, construct_ok by (try apply length_pos; assumption).
  simpl.
  assert (Hrev : rev ws <> []).
  { intros Hrev. apply (f_equal (@length float)) in Hrev.
    rewrite length_rev in Hrev. apply length_pos in Hws. simpl in Hrev. lia. }
  rewrite adjust_normalization_total by exact Hrev.
  destruct (existsb isnull (rev ws)) eqn:Hnan.
  - f_equal. apply (nth_ext _ _ 0 0).
    + rewrite length_map2_div, length_assign_prefix, !length_map.
      apply Nat.min_id.
    + intros t Ht.
      rewrite length_map2_div, length_assign_prefix, !length_map,
        Nat.min_id, length_windows in Ht.
      rewrite nth_map2_div
        by (rewrite ?length_assign_prefix, !length_map, length_windows; exact Ht).
      set (f := fun window : list float => dot (map (fillna 0) window) (rev ws)).
      set (g := fun window : list float => _ / _).
      rewrite (nth_indep (map f _) 0 (f [])), (nth_indep (map g _) 0 (g []))
        by (rewrite length_map, length_windows; exact Ht).
      rewrite !map_nth. unfold f, g.
      rewrite dot_nan_weight, !div_nan_l; [reflexivity | | exact Hnan].
      rewrite length_map, length_row, length_rev; [reflexivity | exact Ht].
  - rewrite xr_sum_populated by exact Hnan.
    rewrite map_const_repeat, assign_prefix_repeat, map2_div_repeat, map_map.
    reflexivity.
Qed.

(** ** Reach of one cell *)

Lemma length_replace_step (t : nat) (v : float) (xs : DataArray) :
  (t < length xs)%nat -> length (replace_step t v xs) = length xs.
Proof.
  intros Ht. unfold replace_step.
  rewrite length_app, length_firstn. cbn [length]. rewrite length_skipn. lia.
Qed.

Lemma nth_replace_step_other (t i : nat) (v d : float) (xs : DataArray) :
  (t < length xs)%nat -> i <> t ->
  nth i (replace_step t v xs) d = nth i xs d.
Proof.
  intros Ht Hi. unfold replace_step.
  assert (Hlen : length (firstn t xs) = t) by (rewrite length_firstn; lia).
  destruct (Nat.lt_ge_cases i t) as [Hlt|Hge].
  - rewrite app_nth1 by lia. rewrite nth_firstn.
    apply Nat.ltb_lt in Hlt. now rewrite Hlt.
  - rewrite app_nth2 by lia. rewrite Hlen.
    destruct (i - t)%nat as [|k] eqn:E; [lia|].
    cbn [nth]. rewrite nth_skipn. f_equal. lia.
Qed.

(** The window of step [s] reads the steps [s-(W-1) .. s] only. *)
Lemma row_replace_step (W t s : nat) (v : float) (xs : DataArray) :
  (t < length xs)%nat -> (s < length xs)%nat ->
  (s < t \/ t + (W - 1) < s)%nat ->
  nth s (windows W (replace_step t v xs)) [] = nth s (windows W xs) [].
Proof.
  intros Ht Hs Hout.
  rewrite !nth_windows by (rewrite ?length_replace_step; assumption).
  apply map_ext_in. intros j Hj. apply in_seq in Hj.
  destruct (s + j <? W - 1)%nat eqn:E; [reflexivity|].
  apply Nat.ltb_ge in E.
  apply nth_replace_step_other; [exact Ht | lia].
Qed.

(** A NaN at step [t] is in the window of every step [t .. t+W-1]. *)
Lemma row_reaches_nan (ws xs : list float) (t s : nat) :
  (t < length xs)%nat -> (s < length xs)%nat ->
  nth t xs nan = nan ->
  (t <= s <= t + (length ws - 1))%nat -> ws <> [] ->
  dot (nth s (windows (length ws) xs) []) (rev ws) / xr_sum (rev ws) = nan.
Proof.
  intros Ht Hs Hnan Hrange Hws.
  assert (HW : (0 < length ws)%nat) by (destruct ws; [congruence | simpl; lia]).
  rewrite (dot_nan _ _ (t + (length ws - 1) - s)).
  - apply div_nan_l.
  - now rewrite length_row, length_rev.
  - rewrite length_row by exact Hs. lia.
  - rewrite nth_row by lia.
    replace (s + (t + (length ws - 1) - s) <? length ws - 1)%nat with false
      by (symmetry; apply Nat.ltb_ge; lia).
    replace (s + (t + (length ws - 1) - s) - (length ws - 1))%nat with t by lia.
    exact Hnan.
Qed.

(** ** Windows that smooth to a number *)

Lemma in_slice_nth (x : float) (xs : DataArray) (W k : nat) :
  In x (firstn W (skipn k xs)) ->
  exists i, (k <= i < k + W)%nat /\ (i < length xs)%nat /\ nth i xs 0 = x.
Proof.
  intros H. apply (In_nth _ _ 0) in H as (j & Hj & Hx).
  rewrite length_firstn, length_skipn in Hj.
  rewrite nth_firstn in Hx.
  replace (j <? W)%nat with true in Hx by (symmetry; apply Nat.ltb_lt; lia).
  rewrite nth_skipn in Hx.
  exists (k + j)%nat. repeat split; try lia. exact Hx.
Qed.

Lemma weights_in_range_spec (ws : list float) :
  weights_in_range ws = true ->
  (length ws <= 300)%nat /\
  (forall w, In w ws -> SFweight (Prim2SF w) /\ SFbelow 147 (Prim2SF w)) /\
  (exists w, In w ws /\ SFpositive (Prim2SF w)).
Proof.
  unfold weights_in_range. intros H.
  apply andb_prop in H as [H Hpos]. apply andb_prop in H as [Hlen Hall].
  apply Nat.leb_le in Hlen. rewrite forallb_forall in Hall.
  assert (Hw : forall w, In w ws -> SFweight (Prim2SF w) /\ SFbelow 147 (Prim2SF w)).
  { intros w Hin. specialize (Hall w Hin). unfold weight_in_range in Hall.
    apply andb_prop in Hall as [H0 H1].
    apply (weight_below w 1e60 5605193857299268); [reflexivity | exact H0 | exact H1]. }
  split; [exact Hlen|]. split; [exact Hw|].
  apply existsb_exists in Hpos as (w & Hin & Hp). exists w. split; [exact Hin|].
  apply positive_weight; [|exact Hp].
  apply SFbelow_mono with 147%Z; [lia | now apply Hw].
Qed.

Lemma weight_not_nan (w : float) : SFweight (Prim2SF w) -> isnull w = false.
Proof.
  intros H. apply is_nan_false. intros E. rewrite E in H. exact H.
Qed.

(** With weights in range the total of the weights is a finite number
    above zero. *)
Lemma xr_sum_positive (ws : list float) :
  weights_in_range ws = true -> SFpositive (Prim2SF (xr_sum (rev ws))).
Proof.
  intros H. apply weights_in_range_spec in H as (Hlen & Hw & (w & Hin & Hp)).
  assert (Hrev : forall v, In v (rev ws) ->
                   SFweight (Prim2SF v) /\ SFbelow 147 (Prim2SF v))
    by (intros v Hv; apply Hw; now apply in_rev).
  rewrite xr_sum_populated.
  - apply (np_sum_positive 147); [exact Hrev | | rewrite length_rev; lia].
    exists w. split; [now apply in_rev in Hin | exact Hp].
  - destruct (existsb isnull (rev ws)) eqn:E; [|reflexivity].
    apply existsb_exists in E as (v & Hv & Hnan).
    rewrite (weight_not_nan v) in Hnan; [discriminate | now apply Hrev].
Qed.

(** Past the warm-up, a window whose cells are in range smooths to a
    number, the weights being in range. *)
Lemma window_number (xs ws : list float) (s : nat) :
  weights_in_range ws = true ->
  (length ws - 1 <= s)%nat -> (s < length xs)%nat ->
  (forall i, (s - (length ws - 1) <= i <= s)%nat -> in_range (nth i xs 0) = true) ->
  is_nan (dot (nth s (windows (length ws) xs) []) (rev ws) / xr_sum (rev ws)) = false.
Proof.
  intros Hws Hwarm Hs Hcells.
  pose proof (xr_sum_positive ws Hws) as Hpos.
  apply weights_in_range_spec in Hws as (Hlen & Hw & (w0 & Hin0 & _)).
  assert (HW : (0 < length ws)%nat) by (destruct ws; [destruct Hin0 | simpl; lia]).
  apply div_number; [|exact Hpos].
  rewrite full_window by assumption.
  apply (dot_below 147 147); try lia.
  - intros x Hx. apply in_slice_nth in Hx as (i & Hi & _ & <-).
    apply (abs_leb_below _ 1e60 5605193857299268); [reflexivity|].
    apply Hcells. lia.
  - intros w Hin. apply Hw. now apply in_rev.
  - rewrite length_rev. lia.
Qed.

End Smoother.

(** * Properties of the smoother *)

Module SmootherSpec.

Import IEEE DemandNinja Smoother.

(** C1. On the populated series [10; 10; 10] with weights [1; 1] and
    [keep_all_days], the specification divides the first step by the
    one weight its truncated window uses and returns 10; the code
    divides it by the full weight sum and returns 5. *)
Theorem keep_all_days_first_step_divisor :
  smooth_temperature_xarray [10; 10; 10] [1; 1] true = Ok [5; 10; 10] /\
  truncated_window_sum [10; 10; 10] [1; 1] 0 / truncated_weight_sum [1; 1] 0 = 10 /\
  truncated_window_sum [10; 10; 10] [1; 1] 0 / np_sum [1; 1] = 5.
Proof. repeat split; vm_compute; reflexivity. Qed.




(** C5. With [keep_all_days], a missing value anywhere in the input
    makes the call fail on its assertion: no output is produced. *)
Theorem keep_all_days_rejects_nan (xs ws : list float) :
  (exists x, In x xs /\ isnull x = true) ->
  smooth_temperature_xarray xs ws true = Raise AssertionError.
Proof.
  intros Hx. unfold smooth_temperature_xarray.
  apply existsb_exists in Hx. rewrite Hx. reflexivity.
Qed.

Lemma keep_all_days_rejects_nan_witness :
  smooth_temperature_xarray [1; nan; 3] [1; 1] true = Raise AssertionError.
Proof.
  apply keep_all_days_rejects_nan. exists nan. split; [simpl; auto | reflexivity].
Defined.

(** C6, as stated, fails: a single NaN at step 2 of a series of six
    steps, under weights [1; 1], leaves NaN at the steps 2 and 3 and
    also at step 0, the warm-up step, which is outside [2 .. 3]. *)
Lemma warm_up_is_nan_beside_the_reach :
  smooth_temperature_xarray [1; 2; nan; 4; 5; 6] [1; 1] false =
    Ok [nan; 1.5; nan; nan; 4.5; 5.5] /\
  isnull (nth 0 [nan; 1.5; nan; nan; 4.5; 5.5] 0) = true /\
  ~ (2 <= 0 <= 2 + (2 - 1))%nat.
Proof. split; [|split]; [vm_compute; reflexivity | reflexivity | lia]. Qed.

(** The range of the weights matters: weights that sum to zero, or
    products that overflow to infinities of both signs, give NaN at
    steps that no input NaN reaches. *)
Lemma out_of_range_inputs_give_nan :
  smooth_temperature_xarray [1; 1; 1] [1; -1] false = Ok [nan; nan; nan] /\
  smooth_temperature_xarray [10; -10; 10] [1e308; 1e308] false = Ok [nan; nan; nan].
Proof. split; vm_compute; reflexivity. Qed.

(** C6, amended. Without [keep_all_days], let the series hold a single
    NaN, at a step [t] past the warm-up, every other cell and the
    weights being in range. The output is NaN at the warm-up steps
    [0 .. W-2] and at the steps [t .. t+W-1], and at no other step: the
    NaN reaches no later step. *)
Theorem single_nan_reach (xs ws : list float) (t : nat) :
  weights_in_range ws = true ->
  (length ws - 1 <= t)%nat -> (t < length xs)%nat ->
  isnull (nth t xs 0) = true ->
  (forall i, (i < length xs)%nat -> i <> t -> in_range (nth i xs 0) = true) ->
  exists out,
    smooth_temperature_xarray xs ws false = Ok out /\
    length out = length xs /\
    forall s, (s < length xs)%nat ->
      (isnull (nth s out 0) = true <->
       (s < length ws - 1 \/ t <= s <= t + (length ws - 1))%nat).
Proof.
  intros Hrange Hwt Ht Hnan Hcells.
  assert (Hws : ws <> []) by (intros ->; discriminate Hrange).
  assert (Hcell : nth t xs nan = nan).
  { rewrite (nth_indep xs nan 0) by exact Ht. now apply is_nan_eq. }
  destruct (smooth_plain_nth xs ws t Hws Ht) as (out & Hout & Hlen & _).
  exists out. split; [exact Hout|]. split; [exact Hlen|].
  intros s Hs.
  destruct (smooth_plain_nth xs ws s Hws Hs) as (o & Ho & _ & Hnth).
  rewrite Hout in Ho. injection Ho as <-. rewrite Hnth.
  destruct (Nat.lt_ge_cases s (length ws - 1)) as [Hwarm|Hpast].
  - rewrite warm_up_nan by assumption. split; [intros _; now left | reflexivity].
  - destruct (Nat.lt_ge_cases s t) as [Hlt|Hge];
      [|destruct (Nat.lt_ge_cases (t + (length ws - 1)) s) as [Hgt|Hle]].
    + unfold isnull. rewrite window_number; try assumption.
      * split; [discriminate | lia].
      * intros i Hi. apply Hcells; lia.
    + unfold isnull. rewrite window_number; try assumption.
      * split; [discriminate | lia].
      * intros i Hi. apply Hcells; lia.
    + rewrite (row_reaches_nan ws xs t s) by (try assumption; lia).
      split; [intros _; right; lia | reflexivity].
Qed.

Lemma single_nan_reach_witness :
  exists out,
    smooth_temperature_xarray [1; 2; nan; 4; 5; 6] [1; 1] false = Ok out /\
    (isnull (nth 1 out 0) = true <-> (1 < 2 - 1 \/ 2 <= 1 <= 2 + (2 - 1))%nat) /\
    (isnull (nth 3 out 0) = true <-> (3 < 2 - 1 \/ 2 <= 3 <= 2 + (2 - 1))%nat).
Proof.
  destruct (single_nan_reach [1; 2; nan; 4; 5; 6] [1; 1] 2) as (out & Hout & _ & H).
  - reflexivity.
  - simpl; lia.
  - simpl; lia.
  - reflexivity.
  - intros i Hi Hne. simpl in Hi.
    destruct i as [|[|[|[|[|[|i]]]]]]; try reflexivity; lia.
  - exists out. split; [exact Hout|].
    split; apply H; simpl; lia.
Defined.

(** C9, as stated for every input series, fails on the empty one: the
    rolling window refuses it and the call raises. *)
Lemma single_weight_rejects_empty_series :
  smooth_temperature_xarray [] [2] false = Raise ValueError.
Proof. reflexivity. Qed.

(** C9, amended. With a single weight [w] and without [keep_all_days],
    the smoother returns for a series that is not empty, step by step,
    the input multiplied by [w] and divided by [w]: the identity up to
    that normalisation. *)
Theorem single_weight_rescales (xs : list float) (w : float) :
  xs <> [] ->
  exists out,
    smooth_temperature_xarray xs [w] false = Ok out /\
    length out = length xs /\
    forall t, (t < length xs)%nat ->
      same_value (nth t out 0) (nth t xs 0 * w / w) = true.
Proof.
  intros Hxs.
  assert (H0 : (0 < length xs)%nat) by now apply length_pos.
  destruct (smooth_plain_nth xs [w] 0 ltac:(discriminate) H0)
    as (out & Hout & Hlen & _).
  exists out. split; [exact Hout|]. split; [exact Hlen|].
  intros t Ht.
  destruct (smooth_plain_nth xs [w] t ltac:(discriminate) Ht)
    as (o & Ho & _ & Hnth).
  rewrite Hout in Ho. injection Ho as <-.
  rewrite Hnth, full_window by (simpl; lia).
  simpl length. replace (t - (1 - 1))%nat with t by lia.
  rewrite firstn_skipn_one by exact Ht.
  change (xr_sum (rev [w])) with (fillna 0 w). unfold fillna, isnull.
  destruct (is_nan w) eqn:Ew.
  - apply is_nan_eq in Ew. subst w.
    unfold dot. simpl. rewrite !mul_nan_r, add_nan_r, !div_nan_l. reflexivity.
  - apply add_zero_div.
Qed.

Lemma single_weight_rescales_witness :
  exists out,
    smooth_temperature_xarray [3; 4] [2] false = Ok out /\
    length out = 2%nat /\
    same_value (nth 1 out 0) (4 * 2 / 2) = true.
Proof.
  destruct (single_weight_rescales [3; 4] 2 ltac:(discriminate))
    as (out & Hout & Hlen & H).
  exists out. split; [exact Hout|]. split; [exact Hlen|].
  apply (H 1%nat). simpl; lia.
Defined.

End SmootherSpec.

(** * Properties of the degree days *)

Module DegreeDays.

Import IEEE DemandNinja.

Lemma nth_get_hdd (T : DataArray) (base : float) (i : nat) :
  (i < length T)%nat ->
  nth i (get_hdd T base) 0 = xr_where (nth i T 0 <? base) (base - nth i T 0) 0.
Proof.
  intros Hi. unfold get_hdd.
  set (f := fun t : float => xr_where (t <? base) (base - t) 0).
  rewrite (nth_indep _ 0 (f 0)) by now rewrite length_map.
  now rewrite map_nth.
Qed.

Lemma nth_get_cdd (T : DataArray) (base : float) (i : nat) :
  (i < length T)%nat ->
  nth i (get_cdd T base) 0 = xr_where (base <? nth i T 0) (nth i T 0 - base) 0.
Proof.
  intros Hi. unfold get_cdd.
  set (f := fun t : float => xr_where (base <? t) (t - base) 0).
  rewrite (nth_indep _ 0 (f 0)) by now rewrite length_map.
  now rewrite map_nth.
Qed.

(** The three ways two numbers compare, as the two masks see them. *)
Lemma masks (t base : float) :
  is_nan t = false -> is_nan base = false ->
  ((t <? base) = true /\ (base <? t) = false) \/
  ((t <? base) = false /\ (base <? t) = true) \/
  ((t <? base) = false /\ (base <? t) = false /\ fkey base = fkey t).
Proof.
  intros Ht Hb. destruct (trichotomy t base Ht Hb) as [H|[H|H]].
  - left. split; [exact H | now apply ltb_antisym].
  - right; left. split; [now apply ltb_antisym | exact H].
  - right; right. repeat split; try (apply ltb_false_key; right); congruence.
Qed.

(** A NaN temperature is masked out by both comparisons and comes out
    as 0, not as NaN. *)
Lemma nan_cell_is_not_propagated :
  isnull (nth 0 (get_hdd [nan] 18) nan) = false /\
  isnull (nth 0 (get_cdd [nan] 18) nan) = false.
Proof. split; reflexivity. Qed.

(** C4. The code does not propagate NaN: a cell that is NaN in the
    temperature input is 0 in the output of [get_hdd] and of [get_cdd],
    for every threshold. The comparison of [xr.where] is false on NaN
    and selects the constant 0, where the subtraction followed by the
    clip at 0 that the code's comments announce would keep the NaN. *)
Theorem nan_cell_gives_zero (T : DataArray) (base : float) (i : nat) :
  (i < length T)%nat -> isnull (nth i T 0) = true ->
  nth i (get_hdd T base) 0 = 0 /\ nth i (get_cdd T base) 0 = 0.
Proof.
  intros Hi Hnan. apply is_nan_eq in Hnan.
  rewrite nth_get_hdd, nth_get_cdd by exact Hi.
  rewrite Hnan, ltb_nan_l, ltb_nan_r. split; reflexivity.
Qed.

Lemma nan_cell_gives_zero_witness :
  nth 1 (get_hdd [10; nan; 25] 18) 0 = 0 /\ nth 1 (get_cdd [10; nan; 25] 18) 0 = 0.
Proof.
  apply (nan_cell_gives_zero [10; nan; 25] 18 1); [simpl; lia | reflexivity].
Defined.

(** At a NaN cell both degree days are 0, so their difference is 0
    while [base - T] is NaN. *)
Lemma difference_fails_on_nan_cell :
  nth 0 (get_hdd [nan] 18) 0 - nth 0 (get_cdd [nan] 18) 0 = 0 /\
  is_nan (18 - nth 0 [nan] 0) = true /\
  same_value (nth 0 (get_hdd [nan] 18) 0 - nth 0 (get_cdd [nan] 18) 0)
             (18 - nth 0 [nan] 0) = false.
Proof. repeat split; reflexivity. Qed.

(** C7. Both degree days are non-negative at every cell, and
    [hdd - cdd] equals [base - T] at every cell where [base - T] is a
    number, that is wherever neither is NaN and they are not the same
    infinity. At a cell whose temperature is NaN the identity fails in
    the code: both degree days are 0 there, so [hdd - cdd] is 0 while
    [base - T] is NaN. *)
Theorem degree_days_nonneg_and_difference (T : DataArray) (base : float) (i : nat) :
  (i < length T)%nat ->
  (0 <=? nth i (get_hdd T base) 0) = true /\
  (0 <=? nth i (get_cdd T base) 0) = true /\
  (is_nan (base - nth i T 0) = false ->
   (nth i (get_hdd T base) 0 - nth i (get_cdd T base) 0 =? base - nth i T 0) = true) /\
  (isnull (nth i T 0) = true ->
   nth i (get_hdd T base) 0 = 0 /\ nth i (get_cdd T base) 0 = 0 /\
   nth i (get_hdd T base) 0 - nth i (get_cdd T base) 0 = 0 /\
   is_nan (base - nth i T 0) = true).
Proof.
  intros Hi. rewrite nth_get_hdd, nth_get_cdd by exact Hi.
  set (t := nth i T 0). unfold xr_where.
  split; [|split; [|split]].
  - destruct (t <? base) eqn:E; [now apply sub_nonneg | reflexivity].
  - destruct (base <? t) eqn:E; [now apply sub_nonneg | reflexivity].
  - intros Hnum.
    pose proof (sub_not_nan_l _ _ Hnum) as Hb.
    pose proof (sub_not_nan_r _ _ Hnum) as Ht.
    destruct (masks t base Ht Hb) as [[E1 E2]|[[E1 E2]|(E1 & E2 & Hk)]];
      rewrite E1, E2.
    + rewrite sub_zero_r. now apply eqb_refl.
    + now apply sub_swap_eqb.
    + now apply sub_same_key.
  - intros Hnan. apply is_nan_eq in Hnan. rewrite Hnan.
    rewrite ltb_nan_l, ltb_nan_r, sub_nan_r.
    split; [|split; [|split]]; reflexivity.
Qed.

Lemma degree_days_nonneg_and_difference_witness :
  (0 <=? nth 1 (get_hdd [10; nan] 18) 0) = true /\
  (nth 0 (get_hdd [10; nan] 18) 0 - nth 0 (get_cdd [10; nan] 18) 0
   =? 18 - nth 0 [10; nan] 0) = true /\
  nth 1 (get_hdd [10; nan] 18) 0 - nth 1 (get_cdd [10; nan] 18) 0 = 0 /\
  is_nan (18 - nth 1 [10; nan] 0) = true.
Proof.
  destruct (degree_days_nonneg_and_difference [10; nan] 18 0 ltac:(simpl; lia))
    as (_ & _ & Hd & _).
  destruct (degree_days_nonneg_and_difference [10; nan] 18 1 ltac:(simpl; lia))
    as (Hh & _ & _ & Hn).
  destruct (Hn eq_refl) as (_ & _ & Hz & Hb).
  split; [exact Hh | split; [apply Hd; reflexivity | split; [exact Hz | exact Hb]]].
Defined.

(** C10, as stated, fails where a degree day is infinite: at an infinite
    temperature, or where the difference of two finite numbers
    overflows, one factor is infinite, the other 0, and the product is
    NaN. *)
Lemma product_fails_on_infinite_degree_day :
  is_nan (nth 0 (get_hdd [infinity] 18) 0 * nth 0 (get_cdd [infinity] 18) 0) = true /\
  is_nan (nth 0 (get_hdd [1.7e308] (-1.7e308)) 0
          * nth 0 (get_cdd [1.7e308] (-1.7e308)) 0) = true.
Proof. split; reflexivity. Qed.

(** C10, amended. At every cell one of the two degree days is 0, so
    they are never both positive. Their product is zero at every cell
    where [T - base] is not infinite, the cells where the temperature
    is NaN included; where [T - base] is infinite the product is NaN. *)
Theorem degree_days_product (T : DataArray) (base : float) (i : nat) :
  (i < length T)%nat ->
  (nth i (get_hdd T base) 0 = 0 \/ nth i (get_cdd T base) 0 = 0) /\
  (is_infinity (nth i T 0 - base) = false ->
   (nth i (get_hdd T base) 0 * nth i (get_cdd T base) 0 =? 0) = true) /\
  (is_infinity (nth i T 0 - base) = true ->
   is_nan (nth i (get_hdd T base) 0 * nth i (get_cdd T base) 0) = true).
Proof.
  intros Hi. rewrite nth_get_hdd, nth_get_cdd by exact Hi.
  set (t := nth i T 0). unfold xr_where. split; [|split].
  - destruct (t <? base) eqn:E1; [|now left].
    right. now rewrite (ltb_antisym _ _ E1).
  - intros Hfin.
    destruct (t <? base) eqn:E1.
    + rewrite (ltb_antisym _ _ E1). apply mul_zero_r.
      * apply leb_zero_not_nan. now apply sub_nonneg.
      * now rewrite sub_swap_infinity.
    + destruct (base <? t) eqn:E2; [|reflexivity].
      apply mul_zero_l; [|exact Hfin].
      apply leb_zero_not_nan. now apply sub_nonneg.
  - intros Hinf.
    assert (Hnum : is_nan (t - base) = false) by now apply infinity_not_nan.
    pose proof (sub_not_nan_l _ _ Hnum) as Ht.
    pose proof (sub_not_nan_r _ _ Hnum) as Hb.
    destruct (masks t base Ht Hb) as [[E1 E2]|[[E1 E2]|(E1 & E2 & Hk)]];
      rewrite E1, E2.
    + apply mul_infinity_zero. now rewrite sub_swap_infinity.
    + now apply mul_zero_infinity.
    + exfalso. symmetry in Hk. pose proof (sub_same_key _ _ Hnum Hk) as Hz.
      apply (infinity_not_zero (t - base)); assumption.
Qed.

Lemma degree_days_product_witness :
  (nth 1 (get_hdd [10; nan; 25] 18) 0 * nth 1 (get_cdd [10; nan; 25] 18) 0 =? 0)
  = true.
Proof.
  apply (proj1 (proj2 (degree_days_product [10; nan; 25] 18 1 ltac:(simpl; lia)))).
  reflexivity.
Defined.

End DegreeDays.

(** * Properties of the wind power density *)

Module WindSpec.

Import IEEE Wind.

Section Plateau.

Variable power : float -> float -> float.

Lemma nth_wind_power_density (da : DataArray) (i : nat) :
  (i < length da)%nat ->
  nth i (wind_power_density power da) 0 =
  wind_power_cell power None (1 / 7) 11 25 3 (nth i da 0).
Proof.
  intros Hi. unfold wind_power_density, calculate_wind_power_potential.
  set (f := wind_power_cell power None (1 / 7) 11 25 3).
  rewrite (nth_indep _ 0 (f 0)) by now rewrite length_map.
  now rewrite map_nth.
Qed.

(** Below the cut-in speed the second mask zeroes the cell. *)
Lemma below_cut_in (w : float) :
  (w <? 3) = true -> wind_power_cell power None (1 / 7) 11 25 3 w = 0.
Proof.
  intros H. apply ltb_key in H. destruct H as (Hw & _ & Hlt).
  unfold wind_power_cell, xr_where.
  assert (E1 : (w <=? 25) = true).
  { apply leb_key. repeat split; try assumption; try reflexivity.
    left. revert Hlt. change (fkey 3) with (1, -51, 6755399441055744)%Z.
    change (fkey 25) with (1, -48, 7036874417766400)%Z.
    destruct (fkey w) as [[a b] c]. unfold key_lt. lia. }
  assert (E2 : (3 <=? w) = false) by (apply leb_false_key; auto).
  rewrite E1, E2. reflexivity.
Qed.

(** Above the cut-out speed the first mask zeroes the cell. *)
Lemma above_cut_out (w : float) :
  (25 <? w) = true -> wind_power_cell power None (1 / 7) 11 25 3 w = 0.
Proof.
  intros H. apply ltb_key in H. destruct H as (_ & Hw & Hlt).
  unfold wind_power_cell, xr_where.
  assert (E1 : (w <=? 25) = false) by (apply leb_false_key; auto).
  rewrite E1. reflexivity.
Qed.

(** From the cap speed to the cut-out speed the cell is capped. *)
Lemma on_plateau (w : float) :
  (11 <=? w) = true -> (w <? 25) = true ->
  wind_power_cell power None (1 / 7) 11 25 3 w = 0.5 * 1.225 * 1331.
Proof.
  intros Hcap Hout.
  apply leb_key in Hcap. destruct Hcap as (_ & Hw & Hcap).
  apply ltb_key in Hout. destruct Hout as (_ & _ & Hout).
  unfold wind_power_cell, xr_where.
  change (fkey 11) with (1, -49, 6192449487634432)%Z in Hcap.
  change (fkey 25) with (1, -48, 7036874417766400)%Z in Hout.
  assert (E1 : (w <=? 25) = true).
  { apply leb_key. repeat split; try assumption; try reflexivity. now left. }
  assert (E2 : (3 <=? w) = true).
  { apply leb_key. repeat split; try assumption; try reflexivity.
    left. change (fkey 3) with (1, -51, 6755399441055744)%Z.
    destruct (fkey w) as [[a b] c]. unfold key_lt in *.
    destruct Hcap as [Hcap|Hcap]; [|injection Hcap; intros]; lia. }
  rewrite E1, E2.
  destruct (w <=? 11) eqn:E3; [|reflexivity].
  apply leb_key in E3. destruct E3 as (_ & _ & E3).
  change (fkey 11) with (1, -49, 6192449487634432)%Z in E3.
  assert (Hk : fkey w = (1, -49, 6192449487634432)%Z).
  { destruct (fkey w) as [[a b] c]. unfold key_lt in *.
    destruct Hcap as [Hcap|Hcap]; [|now symmetry].
    destruct E3 as [E3|E3]; [exfalso; lia | exact E3]. }
  apply fkey_positive in Hk.
  assert (w = 11) as -> by (apply Prim2SF_inj; rewrite Hk; reflexivity).
  reflexivity.
Qed.

(** C8. With the default thresholds, the power density is exactly zero
    at the cells whose wind speed is below the cut-in speed 3 or above
    the cut-out speed 25, and it is [0.5 * 1.225 * 11^3], the binary64
    product [0.5 * 1.225 * 1331], at the cells whose wind speed is at
    least the cap speed 11 and below 25. *)
Theorem power_density_zero_and_plateau (da : DataArray) (i : nat) :
  (i < length da)%nat ->
  ((nth i da 0 <? 3) = true \/ (25 <? nth i da 0) = true ->
   nth i (wind_power_density power da) 0 = 0) /\
  ((11 <=? nth i da 0) = true -> (nth i da 0 <? 25) = true ->
   nth i (wind_power_density power da) 0 = 0.5 * 1.225 * 1331).
Proof.
  intros Hi. rewrite nth_wind_power_density by exact Hi. split.
  - intros [H|H]; [now apply below_cut_in | now apply above_cut_out].
  - intros Hcap Hout. now apply on_plateau.
Qed.

End Plateau.

Lemma power_density_zero_and_plateau_witness :
  nth 0 (wind_power_density (fun x _ => x) [2.9; 25.1; 11; 24.9]) 0 = 0 /\
  nth 3 (wind_power_density (fun x _ => x) [2.9; 25.1; 11; 24.9]) 0
  = 0.5 * 1.225 * 1331.
Proof.
  split.
  - apply (proj1 (power_density_zero_and_plateau (fun x _ => x)
                    [2.9; 25.1; 11; 24.9] 0 ltac:(simpl; lia))).
    left. reflexivity.
  - apply (proj2 (power_density_zero_and_plateau (fun x _ => x)
                    [2.9; 25.1; 11; 24.9] 3 ltac:(simpl; lia))); reflexivity.
Defined.

End WindSpec.

(** * Properties of the BAIT *)

Module BaitSpec.

Import IEEE DemandNinja Smoother.

Lemma length_map2 (f : float -> float -> float) (a b : list float) :
  length (map2 f a b) = Nat.min (length a) (length b).
Proof.
  revert b. induction a as [|x a IH]; intros [|y b]; simpl; auto.
Qed.

Lemma nth_map2 (f : float -> float -> float) (a b : list float) (i : nat) :
  (i < length a)%nat -> (i < length b)%nat ->
  nth i (map2 f a b) 0 = f (nth i a 0) (nth i b 0).
Proof.
  revert b i. induction a as [|x a IH]; intros [|y b] [|i] Ha Hb;
    simpl in *; try lia; auto.
  apply IH; lia.
Qed.

Section Scenario.

Variable exp : float -> float.
Variable pow : float -> float -> float.


(** The BAIT smooths without [keep_all_days] over twelve weights, so
    each of its first eleven steps blends the temperature with a NaN. *)
Lemma bait_warm_up
    (weather : Dataset) (smoothing solar_gains wind_chill humidity_discomfort : float)
    (out : DataArray) (t : nat) :
  _bait_xarray exp pow weather smoothing solar_gains wind_chill humidity_discomfort
    = Ok out ->
  (t < 11)%nat -> (t < length out)%nat -> nth t out 0 = nan.
Proof.
  unfold _bait_xarray. intros H Ht Hlen.
  set (N := unsmoothed_array _ _ _ _ _ _ _ _) in H.
  assert (HN : N <> []).
  { intros E. rewrite E in H. discriminate H. }
  rewrite smooth_plain in H by (try discriminate; exact HN).
  set (ws := bait_weights pow smoothing) in H.
  set (f := fun window : list float => dot window (rev ws) / xr_sum (rev ws)) in H.
  cbn [bind] in H.
  assert (Hws : length ws = 12%nat) by reflexivity.
  assert (Hf : length (map f (windows (length ws) N)) = length N)
    by now rewrite length_map, length_windows.
  set (g := fun T n : float => T * blend_factor exp T + n * (1 - blend_factor exp T)) in H.
  assert (Hout : out = map2 g (temperature weather) (map f (windows (length ws) N)))
    by congruence.
  clear H. subst out. unfold g.
  rewrite length_map2, Hf in Hlen.
  rewrite nth_map2 by lia.
  rewrite (nth_indep (map f _) 0 (f [])) by lia.
  rewrite map_nth. unfold f.
  rewrite warm_up_nan by lia.
  now rewrite mul_nan_l, add_nan_r.
Qed.

(** With no forcing and the humidity at its setpoint, the unsmoothed
    index of a cell at 20 degrees is 20. *)
Lemma unsmoothed_uniform :
  is_finite (setpoint_H exp 20) = true ->
  unsmoothed exp 0 0 0 20 0 0 (setpoint_H exp 20) = 20.
Proof.
  intros Hfin. unfold unsmoothed. rewrite (sub_diag _ Hfin). reflexivity.
Qed.

(** An exponential within one unit in the last place of [e^-1.25]
    takes one of three values there. *)
Lemma exp_at_blend (x : float) :
  (0x1.25618372a584ep-2 <=? x) = true -> (x <=? 0x1.25618372a5850p-2) = true ->
  x = 0x1.25618372a584ep-2 \/ x = 0x1.25618372a584fp-2 \/ x = 0x1.25618372a5850p-2.
Proof.
  intros Hlo Hhi.
  apply leb_key in Hlo. destruct Hlo as (_ & _ & Hlo).
  apply leb_key in Hhi. destruct Hhi as (_ & _ & Hhi).
  change (fkey 0x1.25618372a584ep-2) with (1, -54, 5161211585517646)%Z in Hlo.
  change (fkey 0x1.25618372a5850p-2) with (1, -54, 5161211585517648)%Z in Hhi.
  assert (Hk : fkey x = (1, -54, 5161211585517646)%Z \/
               fkey x = (1, -54, 5161211585517647)%Z \/
               fkey x = (1, -54, 5161211585517648)%Z).
  { destruct (fkey x) as [[a b] c]. unfold key_lt in *.
    destruct Hlo as [Hlo|Hlo]; [|injection Hlo; intros; subst; now left].
    destruct Hhi as [Hhi|Hhi]; [|injection Hhi; intros; subst; now right; right].
    assert (a = 1%Z) by lia. assert (b = (-54)%Z) by lia.
    assert (c = 5161211585517647%Z) by lia. subst. right; left; reflexivity. }
  destruct Hk as [Hk|[Hk|Hk]]; apply fkey_positive in Hk;
    [left | right; left | right; right];
    apply Prim2SF_inj; rewrite Hk; reflexivity.
Qed.

(** C2, amended. In the end-to-end scenario the BAIT is NaN at the
    first eleven steps and exactly 20 at the last five, for an
    exponential that is finite at the humidity setpoint and within one
    unit in the last place of [e^-1.25] in the blend factor, and a
    power with [0.5 ** 2 = 0.25]. *)
Theorem bait_uniform_scenario :
  is_finite (setpoint_H exp 20) = true ->
  (0x1.25618372a584ep-2 <=? exp (-1.25)) = true ->
  (exp (-1.25) <=? 0x1.25618372a5850p-2) = true ->
  pow 0.5 2 = 0.25 ->
  _bait_xarray exp pow (uniform_weather exp) 0.5 0 0 0 =
  Ok (repeat nan 11 ++ repeat 20 5).
Proof.
  intros Hfin Hlo Hhi Hpow. unfold _bait_xarray, uniform_weather.
  cbn [temperature radiation_global_horizontal wind_speed_2m humidity
       repeat unsmoothed_array].
  rewrite (unsmoothed_uniform Hfin).
  unfold bait_weights. rewrite Hpow.
  replace (smooth_temperature_xarray _ _ false)
    with (Ok (repeat nan 11 ++ repeat 20 5)) by (vm_compute; reflexivity).
  cbn [bind repeat app map2].
  rewrite mul_nan_l, add_nan_r.
  assert (Hb : 20 * blend_factor exp 20 + 20 * (1 - blend_factor exp 20) = 20).
  { unfold blend_factor.
    change (- ((20 - (15 + 23) / 2) * 10 / (23 - 15))) with (-1.25).
    destruct (exp_at_blend _ Hlo Hhi) as [E|[E|E]]; rewrite E; reflexivity. }
  rewrite Hb. reflexivity.
Qed.

End Scenario.

(** C2, as stated, fails whatever the exponential and the power: the
    first step of the scenario is NaN, so the output is not 20
    throughout. *)
Lemma bait_scenario_is_not_constant :
  ~ exists (exp : float -> float) (pow : float -> float -> float),
      _bait_xarray exp pow (uniform_weather exp) 0.5 0 0 0 = Ok (repeat 20 16).
Proof.
  intros (exp & pow & H).
  pose proof (bait_warm_up exp pow _ _ _ _ _ _ 0 H ltac:(lia) ltac:(simpl; lia)) as H0.
  apply (f_equal is_nan) in H0. discriminate H0.
Qed.

Lemma bait_uniform_scenario_witness :
  _bait_xarray exp_series (fun x _ => x * x) (uniform_weather exp_series) 0.5 0 0 0 =
  Ok (repeat nan 11 ++ repeat 20 5).
Proof.
  apply (bait_uniform_scenario exp_series (fun x _ => x * x)); reflexivity.
Defined.

End BaitSpec.

(** * Further facts about binary64 arithmetic *)

Module IEEEMore.

Import IEEE.

Lemma leb_nan_l (x : float) : (nan <=? x) = false.
Proof. rewrite leb_spec, Prim2SF_nan. reflexivity. Qed.

Lemma leb_nan_r (x : float) : (x <=? nan) = false.
Proof. rewrite leb_spec, Prim2SF_nan. by_class x. Qed.

Lemma SFnonneg_leb (r : spec_float) :
  SFnonneg r -> SFleb (S754_zero false) r = true.
Proof. intros H. now apply (SFleb_zero_cases false). Qed.

(** The product of a non-negative number with a positive finite one is
    non-negative, and never NaN. *)
Lemma SFmul_nonneg_r (r : spec_float) (m : positive) (e : Z) :
  SFnonneg r -> SFnonneg (SF64mul r (S754_finite false m e)).
Proof.
  intros [->|[(m' & e' & ->)| ->]].
  - now left.
  - apply binary_round_aux_cases. lia.
  - now right; right.
Qed.

Lemma SFmul_nonneg_l (r : spec_float) (m : positive) (e : Z) :
  SFnonneg r -> SFnonneg (SF64mul (S754_finite false m e) r).
Proof.
  intros [->|[(m' & e' & ->)| ->]].
  - now left.
  - apply binary_round_aux_cases. lia.
  - now right; right.
Qed.

(** A number between two positive finite numbers is positive and
    finite. *)
Lemma between_positive (x lo hi : float) (elo ehi : Z) (mlo mhi : positive) :
  fkey lo = (1, elo, Zpos mlo)%Z -> fkey hi = (1, ehi, Zpos mhi)%Z ->
  (lo <=? x) = true -> (x <=? hi) = true ->
  exists m e, Prim2SF x = S754_finite false m e.
Proof.
  intros Hlo Hhi H1 H2.
  apply leb_key in H1. destruct H1 as (_ & _ & H1).
  apply leb_key in H2. destruct H2 as (_ & _ & H2).
  rewrite Hlo in H1. rewrite Hhi in H2.
  assert (Ha : exists b c, fkey x = (1, b, c)%Z).
  { destruct (fkey x) as [[a b] c]. unfold key_lt in *.
    assert (a = 1%Z).
    { destruct H1 as [H1|H1]; [|injection H1; intros; lia].
      destruct H2 as [H2|H2]; [|injection H2; intros; lia]. lia. }
    subst a. eauto. }
  destruct Ha as (b & c & Hk). unfold fkey in Hk.
  destruct (Prim2SF x) as [s|[]| |[] m e]; simpl in Hk; try discriminate.
  eauto.
Qed.

End IEEEMore.


(** * Further properties of the smoother *)

Module SmootherMore.

Import IEEE DemandNinja Smoother.

(** Whatever the mode, a successful call returns, step by step, the
    weighted sum of the filled window over the total of the weights. *)
Lemma smooth_ok (xs ws : list float) (k : bool) (out : DataArray) :
  smooth_temperature_xarray xs ws k = Ok out ->
  ws <> [] /\ xs <> [] /\
  (k = true -> existsb isnull xs = false) /\
  out = map (fun window => dot (map (fillna (fill_of k)) window) (rev ws)
                           / xr_sum (rev ws))
            (windows (length ws) xs).
Proof.
  intros H.
  assert (Hws : ws <> []).
  { intros ->. unfold smooth_temperature_xarray in H. simpl in H.
    destruct (k && existsb isnull xs); discriminate. }
  assert (Hxs : xs <> []).
  { intros ->. unfold smooth_temperature_xarray, construct in H.
    rewrite andb_false_r in H. simpl in H.
    destruct (length (rev ws) =? 0)%nat; discriminate. }
  split; [exact Hws|]. split; [exact Hxs|].
  destruct k.
  - destruct (existsb isnull xs) eqn:E.
    + unfold smooth_temperature_xarray in H. rewrite E in H. discriminate.
    + split; [reflexivity|].
      rewrite smooth_keep_all_days in H by assumption.
      injection H as <-. reflexivity.
  - split; [discriminate|].
    rewrite smooth_plain in H by assumption.
    injection H as <-. apply map_ext. intros w.
    unfold fill_of. now rewrite map_fillna_nan.
Qed.

Lemma smooth_ok_nth (xs ws : list float) (k : bool) (out : DataArray) (t : nat) :
  smooth_temperature_xarray xs ws k = Ok out -> (t < length xs)%nat ->
  nth t out 0 =
  dot (map (fillna (fill_of k)) (nth t (windows (length ws) xs) [])) (rev ws)
  / xr_sum (rev ws).
Proof.
  intros H Ht. apply smooth_ok in H. destruct H as (_ & _ & _ & ->).
  set (f := fun window : list float => _ / _).
  rewrite (nth_indep _ 0 (f [])) by now rewrite length_map, length_windows.
  now rewrite map_nth.
Qed.

(** X1. The smoother returns an array exactly when neither the weights
    nor the series are empty and, with [keep_all_days], the series
    holds no NaN; the array has the length of the series. Otherwise it
    raises: the assertion when [keep_all_days] meets a NaN, else the
    error of the rolling window, which refuses a window of no step and
    a series of no step. *)
Theorem smooth_outcome (xs ws : list float) (k : bool) :
  if k && existsb isnull xs then
    smooth_temperature_xarray xs ws k = Raise AssertionError
  else
    match ws, xs with
    | [], _ | _, [] => smooth_temperature_xarray xs ws k = Raise ValueError
    | _ :: _, _ :: _ =>
        exists out,
          smooth_temperature_xarray xs ws k = Ok out /\ length out = length xs
    end.
Proof.
  destruct (k && existsb isnull xs) eqn:E.
  - unfold smooth_temperature_xarray. now rewrite E.
  - destruct ws as [|w ws'].
    + unfold smooth_temperature_xarray. now rewrite E.
    + destruct xs as [|x xs'].
      * unfold smooth_temperature_xarray, construct. rewrite E. simpl.
        destruct (length (rev ws' ++ [w]) =? 0)%nat; reflexivity.
      * destruct k.
        -- simpl in E.
           rewrite smooth_keep_all_days by (try discriminate; exact E).
           eexists. split; [reflexivity|]. now rewrite length_map, length_windows.
        -- rewrite smooth_plain by discriminate.
           eexists. split; [reflexivity|]. now rewrite length_map, length_windows.
Qed.

(** Two series that agree on the steps [t-(W-1) .. t] have the same
    window at step [t]. *)
Lemma row_agree (W t : nat) (xs ys : DataArray) :
  length xs = length ys -> (t < length xs)%nat ->
  (forall i, (t - (W - 1) <= i <= t)%nat -> nth i xs 0 = nth i ys 0) ->
  nth t (windows W xs) [] = nth t (windows W ys) [].
Proof.
  intros Hlen Ht Hagree.
  rewrite !nth_windows by lia.
  apply map_ext_in. intros j Hj. apply in_seq in Hj.
  destruct (t + j <? W - 1)%nat eqn:E; [reflexivity|].
  apply Nat.ltb_ge in E.
  rewrite (nth_indep xs nan 0), (nth_indep ys nan 0) by lia.
  apply Hagree. lia.
Qed.

(** X2. The smoother is causal and local: in either mode, the output at
    step [t] depends on the input at the steps [t-(W-1) .. t] only.
    Two series of the same length that agree on those steps have the
    same output at [t], whatever they hold before or after. *)
Theorem smooth_is_causal
    (xs ys ws : list float) (k : bool) (outx outy : DataArray) (t : nat) :
  length xs = length ys -> (t < length xs)%nat ->
  (forall i, (t - (length ws - 1) <= i <= t)%nat -> nth i xs 0 = nth i ys 0) ->
  smooth_temperature_xarray xs ws k = Ok outx ->
  smooth_temperature_xarray ys ws k = Ok outy ->
  nth t outx 0 = nth t outy 0.
Proof.
  intros Hlen Ht Hagree Hx Hy.
  rewrite (smooth_ok_nth xs ws k outx t Hx Ht).
  rewrite (smooth_ok_nth ys ws k outy t Hy ltac:(lia)).
  now rewrite (row_agree (length ws) t xs ys).
Qed.

Lemma smooth_is_causal_witness :
  nth 2 [nan; 1.5; 2.5; 3.5] 0 = nth 2 [nan; 1.5; 2.5; 53.5] 0.
Proof.
  apply (smooth_is_causal [1; 2; 3; 4] [1; 2; 3; 104] [1; 1] false
           [nan; 1.5; 2.5; 3.5] [nan; 1.5; 2.5; 53.5] 2).
  - reflexivity.
  - simpl; lia.
  - intros i Hi. simpl in Hi.
    destruct i as [|[|[|i]]]; try reflexivity; lia.
  - vm_compute; reflexivity.
  - vm_compute; reflexivity.
Defined.

(** X3. Without [keep_all_days], a NaN at step [i] of the input makes
    the output NaN at every step [i .. i+W-1], whatever the other cells
    and whatever the weights: a weight of zero does not shield it. *)
Theorem nan_poisons_window (xs ws : list float) (out : DataArray) (i t : nat) :
  smooth_temperature_xarray xs ws false = Ok out ->
  isnull (nth i xs 0) = true ->
  (i <= t <= i + (length ws - 1))%nat -> (t < length xs)%nat ->
  isnull (nth t out 0) = true.
Proof.
  intros H Hnan Hrange Ht.
  pose proof (smooth_ok _ _ _ _ H) as (Hws & _ & _ & _).
  destruct (smooth_plain_nth xs ws t Hws Ht) as (o & Ho & _ & Hnth).
  rewrite H in Ho. injection Ho as <-.
  rewrite Hnth, (row_reaches_nan ws xs i t); try assumption; try lia.
  - reflexivity.
  - rewrite (nth_indep xs nan 0) by lia. now apply is_nan_eq.
Qed.

Lemma nan_poisons_window_witness :
  isnull (nth 2 [nan; nan; nan; 4; 5] 0) = true.
Proof.
  apply (nan_poisons_window [1; nan; 3; 4; 5] [1; 0] [nan; nan; nan; 4; 5] 1 2).
  - vm_compute; reflexivity.
  - reflexivity.
  - simpl; lia.
  - simpl; lia.
Defined.

(** X4. Without [keep_all_days], a series that is not empty and has
    fewer than [W] steps is smoothed to NaN at every step: no window is
    ever full. *)
Theorem short_series_is_all_nan (xs ws : list float) :
  xs <> [] -> (length xs < length ws)%nat ->
  smooth_temperature_xarray xs ws false = Ok (repeat nan (length xs)).
Proof.
  intros Hxs Hshort.
  assert (Hws : ws <> []) by (intros ->; simpl in Hshort; lia).
  rewrite smooth_plain by assumption. f_equal.
  apply (nth_ext _ _ 0 0).
  - now rewrite length_map, length_windows, repeat_length.
  - intros t Ht. rewrite length_map, length_windows in Ht.
    set (f := fun window : list float => _ / _).
    rewrite (nth_indep _ 0 (f [])) by now rewrite length_map, length_windows.
    rewrite map_nth. unfold f.
    rewrite warm_up_nan by lia.
    symmetry. apply nth_repeat_lt. exact Ht.
Qed.

Lemma short_series_is_all_nan_witness :
  smooth_temperature_xarray [1; 2] [1; 1; 1] false = Ok (repeat nan (length [1; 2])).
Proof.
  apply (short_series_is_all_nan [1; 2] [1; 1; 1]); [discriminate | simpl; lia].
Defined.

Lemma in_slice (x : float) (xs : DataArray) (W k : nat) :
  In x (firstn W (skipn k xs)) -> In x xs.
Proof.
  intros H.
  rewrite <- (firstn_skipn k xs). apply in_or_app. right.
  rewrite <- (firstn_skipn W (skipn k xs)). apply in_or_app. now left.
Qed.

(** On a populated series a full window holds no NaN, so filling it
    changes nothing. *)
Lemma fillna_full_window (v : float) (xs : DataArray) (W k : nat) :
  existsb isnull xs = false ->
  map (fillna v) (firstn W (skipn k xs)) = firstn W (skipn k xs).
Proof.
  intros Hpop. rewrite <- (map_id (firstn W (skipn k xs))) at 2.
  apply map_ext_in. intros x Hx.
  unfold fillna. replace (isnull x) with false; [reflexivity|].
  symmetry. destruct (isnull x) eqn:E; [|reflexivity].
  assert (Hin : In x xs) by (eapply in_slice; eauto).
  assert (existsb isnull xs = true) by (apply existsb_exists; eauto).
  congruence.
Qed.

(** X5. On a populated series, [keep_all_days] changes the first [W-1]
    steps only: from step [W-1] on, the two modes return the same
    values. *)
Theorem keep_all_days_agrees_past_warm_up
    (xs ws : list float) (out_keep out_plain : DataArray) (t : nat) :
  smooth_temperature_xarray xs ws true = Ok out_keep ->
  smooth_temperature_xarray xs ws false = Ok out_plain ->
  (length ws - 1 <= t)%nat -> (t < length xs)%nat ->
  nth t out_keep 0 = nth t out_plain 0.
Proof.
  intros Hk Hp Hw Ht.
  pose proof (smooth_ok _ _ _ _ Hk) as (Hws & _ & Hpop & _).
  specialize (Hpop eq_refl).
  assert (HW : (0 < length ws)%nat) by (destruct ws; [congruence | simpl; lia]).
  rewrite (smooth_ok_nth _ _ _ _ t Hk Ht), (smooth_ok_nth _ _ _ _ t Hp Ht).
  rewrite full_window by assumption.
  now rewrite !fillna_full_window.
Qed.

Lemma keep_all_days_agrees_past_warm_up_witness :
  nth 1 [5; 10; 10] 0 = nth 1 [nan; 10; 10] 0.
Proof.
  apply (keep_all_days_agrees_past_warm_up [10; 10; 10] [1; 1]
           [5; 10; 10] [nan; 10; 10] 1).
  - vm_compute; reflexivity.
  - vm_compute; reflexivity.
  - simpl; lia.
  - simpl; lia.
Defined.



(** X17. A NaN among the weights makes every step of the output NaN,
    in either mode: the total of the weights skips the NaN weight, but
    every weighted window sum holds it. *)
Theorem nan_weight_poisons_output
    (xs ws : list float) (k : bool) (out : DataArray) (t : nat) :
  existsb isnull ws = true ->
  smooth_temperature_xarray xs ws k = Ok out -> (t < length xs)%nat ->
  isnull (nth t out 0) = true.
Proof.
  intros Hnan H Ht.
  rewrite (smooth_ok_nth _ _ _ _ t H Ht).
  rewrite dot_nan_weight, div_nan_l.
  - reflexivity.
  - now rewrite length_map, length_row, length_rev.
  - now rewrite existsb_isnull_rev.
Qed.

Lemma nan_weight_poisons_output_witness :
  isnull (nth 2 [nan; nan; nan] 0) = true.
Proof.
  apply (nan_weight_poisons_output [1; 2; 3] [1; nan] true [nan; nan; nan] 2).
  - reflexivity.
  - vm_compute; reflexivity.
  - simpl; lia.
Defined.

End SmootherMore.

(** * Further properties of the degree days *)

Module DegreeDaysMore.

Import IEEE DemandNinja DegreeDays.

(** X7. There is no heating demand at or above the threshold and no
    cooling demand at or below it: [hdd] is exactly 0 at every cell
    with [base <= T], [cdd] exactly 0 at every cell with [T <= base]. *)
Theorem no_demand_past_threshold (T : DataArray) (base : float) (i : nat) :
  (i < length T)%nat ->
  ((base <=? nth i T 0) = true -> nth i (get_hdd T base) 0 = 0) /\
  ((nth i T 0 <=? base) = true -> nth i (get_cdd T base) 0 = 0).
Proof.
  intros Hi. rewrite nth_get_hdd, nth_get_cdd by exact Hi.
  unfold xr_where. split; intros H; apply leb_key in H;
    destruct H as (_ & _ & H).
  - rewrite ltb_false_key; [reflexivity|].
    destruct H as [H|H]; [now left | now right].
  - rewrite ltb_false_key; [reflexivity|].
    destruct H as [H|H]; [now left | now right].
Qed.

Lemma no_demand_past_threshold_witness :
  nth 1 (get_hdd [10; 18; 25] 18) 0 = 0 /\ nth 1 (get_cdd [10; 18; 25] 18) 0 = 0.
Proof.
  destruct (no_demand_past_threshold [10; 18; 25] 18 1 ltac:(simpl; lia))
    as [Hh Hc].
  split; [apply Hh | apply Hc]; reflexivity.
Defined.

End DegreeDaysMore.

(** * Further properties of the wind power density *)

Module WindMore.

Import IEEE IEEEMore Wind.

Section AnyHeight.

Variable power : float -> float -> float.

(** The three masks with the default thresholds. *)
Lemma clipped_speed (w : float) :
  let c := xr_where (xr_where (3 <=? xr_where (w <=? 25) w 0)
                              (xr_where (w <=? 25) w 0) 0 <=? 11)
                    (xr_where (3 <=? xr_where (w <=? 25) w 0)
                              (xr_where (w <=? 25) w 0) 0) 11 in
  c = 0 \/ exists m e, Prim2SF c = S754_finite false m e.
Proof.
  unfold xr_where. destruct (w <=? 25) eqn:E1.
  - destruct (3 <=? w) eqn:E2.
    + destruct (w <=? 11) eqn:E3.
      * right. apply (between_positive w 3 25 (-51) (-48)
                        6755399441055744 7036874417766400);
          try assumption; reflexivity.
      * right. simpl. eexists _, _. reflexivity.
    + now left.
  - now left.
Qed.

(** X8. With the default thresholds the power density is a number and
    is never negative, at every cell and for every input: a cell that
    is NaN, infinite or negative, and any hub height, exponent and
    power function included. *)
Theorem power_density_is_nonneg
    (da : DataArray) (hub_height : option float) (alpha : float) (i : nat) :
  (i < length da)%nat ->
  (0 <=? nth i (calculate_wind_power_potential power da hub_height alpha 11 25 3) 0)
  = true.
Proof.
  intros Hi. unfold calculate_wind_power_potential.
  set (f := wind_power_cell power hub_height alpha 11 25 3).
  rewrite (nth_indep _ 0 (f 0)) by now rewrite length_map.
  rewrite map_nth. unfold f, wind_power_cell.
  set (w := match hub_height with Some _ => _ | None => _ end).
  destruct (clipped_speed w) as [Hc|(m & e & Hc)]; cbv zeta in Hc.
  - rewrite Hc. reflexivity.
  - set (c := xr_where _ _ 11) in *.
    rewrite leb_spec, Prim2SF_zero. apply SFnonneg_leb.
    unfold cube. rewrite !mul_spec, Hc.
    change (Prim2SF 0.5) with (S754_finite false 4503599627370496 (-53)).
    change (Prim2SF air_density) with (S754_finite false 5516909543528858 (-52)).
    assert (Hk : SFnonneg (SF64mul (S754_finite false 4503599627370496 (-53))
                                   (S754_finite false 5516909543528858 (-52)))).
    { right; left. vm_compute. eauto. }
    destruct Hk as [Hk|[(mk & ek & Hk)|Hk]]; try discriminate Hk.
    rewrite Hk. apply SFmul_nonneg_l. apply SFmul_nonneg_r.
    apply (SFmul_nonneg_r (S754_finite false m e)). right; left; eauto.
Qed.

(** X9. With the default thresholds a NaN wind speed does not
    propagate: the cell comes out as exactly 0, with or without a hub
    height. *)
Theorem nan_speed_gives_zero
    (da : DataArray) (hub_height : option float) (alpha : float) (i : nat) :
  (i < length da)%nat -> isnull (nth i da 0) = true ->
  nth i (calculate_wind_power_potential power da hub_height alpha 11 25 3) 0 = 0.
Proof.
  intros Hi Hnan. apply is_nan_eq in Hnan.
  unfold calculate_wind_power_potential.
  set (f := wind_power_cell power hub_height alpha 11 25 3).
  rewrite (nth_indep _ 0 (f 0)) by now rewrite length_map.
  rewrite map_nth, Hnan. unfold f, wind_power_cell.
  assert (Hw : match hub_height with
               | Some h => if h =? 100 then nan else nan * power (h / 100) alpha
               | None => nan
               end = nan).
  { destruct hub_height as [h|]; [|reflexivity].
    destruct (h =? 100); [reflexivity | apply mul_nan_l]. }
  rewrite Hw. reflexivity.
Qed.

(** X10. Without a hub height and with the default thresholds, the
    cut-in, cap and cut-out speeds belong to the range they close: from
    the cap speed 11 to the cut-out speed 25, both included, the
    density is the plateau value [0.5 * 1.225 * 1331], and a cell at
    the cut-in speed 3 is kept and gives [0.5 * 1.225 * 27]. *)
Theorem thresholds_are_inclusive (da : DataArray) (i : nat) :
  (i < length da)%nat ->
  ((11 <=? nth i da 0) = true -> (nth i da 0 <=? 25) = true ->
   nth i (wind_power_density power da) 0 = 0.5 * 1.225 * 1331) /\
  (nth i da 0 = 3 ->
   nth i (wind_power_density power da) 0 = 0.5 * 1.225 * 27).
Proof.
  intros Hi. rewrite WindSpec.nth_wind_power_density by exact Hi.
  set (w := nth i da 0).
  unfold wind_power_cell, xr_where. split.
  - intros Hcap Hout.
    assert (E2 : (3 <=? w) = true).
    { apply leb_key in Hcap. destruct Hcap as (_ & Hw & Hcap).
      apply leb_key. repeat split; try assumption; try reflexivity. left.
      change (fkey 11) with (1, -49, 6192449487634432)%Z in Hcap.
      change (fkey 3) with (1, -51, 6755399441055744)%Z.
      destruct (fkey w) as [[a b] c]. unfold key_lt in *.
      destruct Hcap as [Hcap|Hcap]; [|injection Hcap; intros]; lia. }
    rewrite Hout, E2.
    destruct (w <=? 11) eqn:E3; [|reflexivity].
    apply leb_key in Hcap. destruct Hcap as (_ & _ & Hcap).
    apply leb_key in E3. destruct E3 as (_ & _ & E3).
    change (fkey 11) with (1, -49, 6192449487634432)%Z in Hcap, E3.
    assert (Hk : fkey w = (1, -49, 6192449487634432)%Z).
    { destruct (fkey w) as [[a b] c]. unfold key_lt in *.
      destruct Hcap as [Hcap|Hcap]; [|now symmetry].
      destruct E3 as [E3|E3]; [exfalso; lia | exact E3]. }
    apply fkey_positive in Hk.
    assert (w = 11) as -> by (apply Prim2SF_inj; rewrite Hk; reflexivity).
    reflexivity.
  - intros ->. reflexivity.
Qed.

End AnyHeight.

Lemma power_density_is_nonneg_witness :
  (0 <=? nth 1 (calculate_wind_power_potential (fun x _ => x)
                  [5; nan; -2] (Some 80) (1 / 7) 11 25 3) 0) = true.
Proof.
  apply (power_density_is_nonneg (fun x _ => x) [5; nan; -2] (Some 80) (1 / 7) 1).
  simpl; lia.
Defined.

Lemma nan_speed_gives_zero_witness :
  nth 1 (calculate_wind_power_potential (fun x _ => x)
           [5; nan; 12] (Some 80) (1 / 7) 11 25 3) 0 = 0.
Proof.
  apply (nan_speed_gives_zero (fun x _ => x) [5; nan; 12] (Some 80) (1 / 7) 1);
    [simpl; lia | reflexivity].
Defined.

Lemma thresholds_are_inclusive_witness :
  nth 0 (wind_power_density (fun x _ => x) [3; 25]) 0 = 0.5 * 1.225 * 27 /\
  nth 1 (wind_power_density (fun x _ => x) [3; 25]) 0 = 0.5 * 1.225 * 1331.
Proof.
  split.
  - apply (proj2 (thresholds_are_inclusive (fun x _ => x) [3; 25] 0
                    ltac:(simpl; lia))); reflexivity.
  - apply (proj1 (thresholds_are_inclusive (fun x _ => x) [3; 25] 1
                    ltac:(simpl; lia))); reflexivity.
Defined.

End WindMore.

(** * Further properties of the BAIT *)

Module BaitMore.

Import IEEE DemandNinja Smoother BaitSpec.

Section AnyExp.

Variable exp : float -> float.
Variable pow : float -> float -> float.








End AnyExp.





End BaitMore.

(** * The early steps of [keep_all_days] *)

Module KeepAllDays.

Import IEEE Magnitude DemandNinja Smoother SmootherMore.

Lemma nth_zero_history (k : nat) (xs : DataArray) (j : nat) (d : float) :
  nth j (repeat 0 k ++ xs) d = if (j <? k)%nat then 0 else nth (j - k) xs d.
Proof.
  destruct (j <? k)%nat eqn:E.
  - apply Nat.ltb_lt in E. rewrite app_nth1 by (rewrite repeat_length; lia).
    apply nth_repeat_lt. exact E.
  - apply Nat.ltb_ge in E. rewrite app_nth2 by (rewrite repeat_length; lia).
    now rewrite repeat_length.
Qed.

(** The window of step [t] with its missing cells filled with zero is
    the window of step [t+W-1] of the series behind [W-1] steps at
    zero. *)
Lemma filled_row (W : nat) (xs : DataArray) (t : nat) :
  existsb isnull xs = false -> (t < length xs)%nat ->
  map (fillna 0) (nth t (windows W xs) []) =
  nth (t + (W - 1)) (windows W (repeat 0 (W - 1) ++ xs)) [].
Proof.
  intros Hpop Ht.
  rewrite !nth_windows by (rewrite ?length_app, ?repeat_length; lia).
  rewrite map_map. apply map_ext_in. intros j Hj. apply in_seq in Hj.
  replace (t + (W - 1) + j <? W - 1)%nat with false
    by (symmetry; apply Nat.ltb_ge; lia).
  rewrite nth_zero_history.
  replace (t + (W - 1) + j - (W - 1))%nat with (t + j)%nat by lia.
  destruct (t + j <? W - 1)%nat eqn:E; [reflexivity|].
  apply Nat.ltb_ge in E.
  unfold fillna. replace (isnull (nth (t + j - (W - 1)) xs nan)) with false;
    [reflexivity|].
  symmetry. destruct (isnull _) eqn:En; [|reflexivity].
  assert (existsb isnull xs = true); [|congruence].
  apply existsb_exists. eexists. split; [|exact En]. apply nth_In. lia.
Qed.

(** X14. With [keep_all_days], a populated series is smoothed as if it
    came behind [W-1] steps at zero: the output is the plain smoothing
    of the series with that history, the [W-1] steps of the history
    dropped. The early steps are thus biased towards zero, by the
    weight of the steps that do not exist: four steps at 10 under the
    weights [1; 1; 2] start at [10 * 1 / 4] and [(10 * 1 + 10 * 1) / 4]. *)
Theorem keep_all_days_is_zero_history :
  (forall (xs ws : list float) (out out0 : DataArray) (t : nat),
     smooth_temperature_xarray xs ws true = Ok out ->
     smooth_temperature_xarray (repeat 0 (length ws - 1) ++ xs) ws false = Ok out0 ->
     (t < length xs)%nat ->
     length out0 = (length ws - 1 + length xs)%nat /\
     nth t out 0 = nth (t + (length ws - 1)) out0 0) /\
  smooth_temperature_xarray [10; 10; 10; 10] [1; 1; 2] true = Ok [2.5; 5; 10; 10].
Proof.
  split; [|vm_compute; reflexivity].
  intros xs ws out out0 t H H0 Ht.
  pose proof (smooth_ok _ _ _ _ H) as (_ & _ & Hpop & _). specialize (Hpop eq_refl).
  split.
  - apply smooth_ok in H0. destruct H0 as (_ & _ & _ & ->).
    now rewrite length_map, length_windows, length_app, repeat_length.
  - rewrite (smooth_ok_nth _ _ _ _ t H Ht).
    rewrite (smooth_ok_nth _ _ _ _ (t + (length ws - 1)) H0)
      by (rewrite length_app, repeat_length; lia).
    unfold fill_of. rewrite map_fillna_nan, filled_row by assumption.
    reflexivity.
Qed.

Lemma keep_all_days_is_zero_history_witness :
  nth 1 [2.5; 6.25; 10; 10.25] 0 =
  nth (1 + (length [1; 1; 2] - 1)) [nan; nan; 2.5; 6.25; 10; 10.25] 0.
Proof.
  apply (proj1 keep_all_days_is_zero_history [10; 15; 5; 6] [1; 1; 2]
           [2.5; 6.25; 10; 10.25] [nan; nan; 2.5; 6.25; 10; 10.25] 1%nat).
  - vm_compute; reflexivity.
  - vm_compute; reflexivity.
  - simpl; lia.
Defined.

(** X16. With [keep_all_days], a series and weights in range are
    smoothed to a number at every step: the call succeeds and no step
    of the output is NaN, the early steps included. *)
Theorem keep_all_days_has_no_nan (xs ws : list float) :
  xs <> [] -> weights_in_range ws = true -> forallb in_range xs = true ->
  exists out,
    smooth_temperature_xarray xs ws true = Ok out /\
    length out = length xs /\
    forall t, (t < length xs)%nat -> isnull (nth t out 0) = false.
Proof.
  intros Hxs Hrange Hcells.
  assert (Hws : ws <> []) by (intros ->; discriminate Hrange).
  assert (Hpop : existsb isnull xs = false).
  { destruct (existsb isnull xs) eqn:E; [|reflexivity].
    apply existsb_exists in E as (x & Hin & Hnan).
    rewrite forallb_forall in Hcells. specialize (Hcells x Hin).
    apply is_nan_eq in Hnan. subst x. discriminate Hcells. }
  rewrite smooth_keep_all_days by assumption.
  eexists. split; [reflexivity|]. split.
  - now rewrite length_map, length_windows.
  - intros t Ht.
    set (f := fun window : list float => _ / _).
    rewrite (nth_indep _ 0 (f [])) by now rewrite length_map, length_windows.
    rewrite map_nth. unfold f.
    rewrite filled_row by assumption.
    apply window_number; try assumption.
    + lia.
    + rewrite length_app, repeat_length. lia.
    + intros i _. rewrite nth_zero_history.
      destruct (i <? length ws - 1)%nat eqn:E; [reflexivity|].
      apply Nat.ltb_ge in E.
      destruct (Nat.lt_ge_cases (i - (length ws - 1)) (length xs)) as [Hi|Hi].
      * rewrite forallb_forall in Hcells. apply Hcells, nth_In, Hi.
      * rewrite nth_overflow by exact Hi. reflexivity.
Qed.

Lemma keep_all_days_has_no_nan_witness :
  exists out,
    smooth_temperature_xarray [20; 21; 19; 18] [1; 0.5; 0.25] true = Ok out /\
    isnull (nth 0 out 0) = false.
Proof.
  destruct (keep_all_days_has_no_nan [20; 21; 19; 18] [1; 0.5; 0.25]
              ltac:(discriminate) ltac:(reflexivity) ltac:(reflexivity))
    as (out & Hout & _ & H).
  exists out. split; [exact Hout | apply H; simpl; lia].
Defined.

End KeepAllDays.

(** * Degree days and the distance to the threshold *)

Module DegreeDaysTotal.

Import IEEE DemandNinja DegreeDays.

(** Adding a zero to a non-negative number gives its absolute value,
    and the absolute value of its opposite. *)
Lemma SFabs_of_nonneg (d : spec_float) :
  SFleb (S754_zero false) d = true ->
  SFeqb (SF64add d (S754_zero false)) (SFabs (SFopp d)) = true /\
  SFeqb (SF64add (S754_zero false) d) (SFabs d) = true.
Proof.
  destruct d as [[]|[]| |[] m e]; intros H; try discriminate H;
    split; try reflexivity; apply SFeqb_refl; discriminate.
Qed.

(** X15. At every cell where [T - base] is a number, the two degree
    days add up to the distance between temperature and threshold:
    [hdd + cdd = |T - base|]. *)
Theorem degree_days_sum (T : DataArray) (base : float) (i : nat) :
  (i < length T)%nat -> is_nan (nth i T 0 - base) = false ->
  (nth i (get_hdd T base) 0 + nth i (get_cdd T base) 0
   =? abs (nth i T 0 - base)) = true.
Proof.
  intros Hi Hnum. rewrite nth_get_hdd, nth_get_cdd by exact Hi.
  set (t := nth i T 0) in *. unfold xr_where.
  pose proof (sub_not_nan_l _ _ Hnum) as Ht.
  pose proof (sub_not_nan_r _ _ Hnum) as Hb.
  destruct (masks t base Ht Hb) as [[E1 E2]|[[E1 E2]|(E1 & E2 & Hk)]];
    rewrite E1, E2, eqb_spec, add_spec, abs_spec.
  - pose proof (sub_nonneg _ _ E1) as Hnn.
    rewrite leb_spec, Prim2SF_zero, sub_spec in Hnn.
    rewrite !sub_spec, Prim2SF_zero.
    destruct (SFsub_swap (Prim2SF base) (Prim2SF t)) as [E|(s & s' & E & E')].
    + rewrite E. now apply SFabs_of_nonneg.
    + rewrite E, E'. destruct s, s'; reflexivity.
  - pose proof (sub_nonneg _ _ E2) as Hnn.
    rewrite leb_spec, Prim2SF_zero, sub_spec in Hnn.
    rewrite !sub_spec, Prim2SF_zero. now apply SFabs_of_nonneg.
  - rewrite sub_spec. apply is_nan_false in Hnum, Ht, Hb.
    rewrite sub_spec in Hnum. symmetry in Hk.
    destruct (SFsub_same_key _ _ Ht Hb Hk) as [E|(s & E)]; [contradiction|].
    rewrite E. destruct s; reflexivity.
Qed.

Lemma degree_days_sum_witness :
  (nth 0 (get_hdd [10; 25] 18) 0 + nth 0 (get_cdd [10; 25] 18) 0
   =? abs (nth 0 [10; 25] 0 - 18)) = true.
Proof.
  apply (degree_days_sum [10; 25] 18 0); [simpl; lia | reflexivity].
Defined.

End DegreeDaysTotal.
